(** * The ASCII architecture-diagram renderer of [app/ascii_diagrammer.py]

    A shallow embedding of [ASCIIDiagramGenerator] and of the tool entry point
    [generate_ascii_diagram], with the properties its specification states.

    Python values are modelled as follows.
    - [str] is a sequence of Unicode code points ([list N]); [len] is the
      number of code points.
    - [int] is [Z].
    - A [dict] that is only read with [.get] is a [gmap]; a [dict] that is
      iterated is an association list in insertion order.
    - [set] is a [gset].
    - [print] appends its text to a log, or raises when [sys.stdout] cannot
      encode the text, and an exception ends the computation: log and
      exception are carried by the monad [Py.M]. *)

From stdpp Require Import gmap strings list sorting.
From Stdlib Require Import ZArith Lia Ascii.

Local Open Scope Z_scope.

(** ** Python built-ins *)

Module Py.

Abbreviation str := (list N).

(** An ASCII literal of the source, as a [str]. *)
Definition lit (s : string) : str := N_of_ascii <$> String.list_ascii_of_string s.

Definition len {A} (l : list A) : Z := Z.of_nat (length l).

(** The part of the interpreter's environment that the module reaches: the
    Unicode database, through [str.lower], [str.upper], [\w] and [\s], and
    the encoding of [sys.stdout], through [print].  Inside ASCII the functions
    below are written out; outside ASCII they ask this table, so every theorem
    holds whatever the table says. *)
Class UnicodeData := {
  uni_isalnum : N → bool;
  uni_isspace : N → bool;
  uni_lower : N → str;
  uni_upper : N → str;
  stdout_encodes : N → bool
}.

Section unicode.
Context `{U : UnicodeData}.

Definition is_ascii (c : N) : bool := (c <? 128)%N.

Definition between (lo hi c : N) : bool := ((lo <=? c) && (c <=? hi))%N.

Definition lower_char (c : N) : str :=
  if is_ascii c then [if between 65 90 c then (c + 32)%N else c] else uni_lower c.

Definition upper_char (c : N) : str :=
  if is_ascii c then [if between 97 122 c then (c - 32)%N else c] else uni_upper c.

(** [s.lower()] and [s.upper()], code point by code point.  (CPython has one
    rule that looks at the neighbouring characters, for the Greek capital
    sigma; it is left out.) *)
Definition lower (s : str) : str := s ≫= lower_char.
Definition upper (s : str) : str := s ≫= upper_char.

(** [\w]: alphanumeric or underscore. *)
Definition is_word (c : N) : bool :=
  if is_ascii c
  then between 48 57 c || between 65 90 c || between 97 122 c || (c =? 95)%N
  else uni_isalnum c.

(** [\s]: for ASCII, tab to carriage return, the four separators 28..31 and
    the space. *)
Definition is_space (c : N) : bool :=
  if is_ascii c
  then between 9 13 c || between 28 31 c || (c =? 32)%N
  else uni_isspace c.

(** Whether [sys.stdout] can encode a code point.  The encoding of the stream
    is taken to extend ASCII; on the other code points the environment
    decides (UTF-8 refuses the surrogates, [ascii] and the legacy code pages
    refuse more). *)
Definition can_encode (c : N) : bool :=
  if is_ascii c then true else stdout_encodes c.

End unicode.

(** [' ' * n], [s * n]. *)
Definition repeat_str (s : str) (n : Z) : str := mjoin (replicate (Z.to_nat n) s).
Definition spaces (n : Z) : str := replicate (Z.to_nat n) 32%N.

(** [s.ljust(width)]. *)
Definition ljust (s : str) (width : Z) : str :=
  if len s >=? width then s else s ++ spaces (width - len s).

(** [s.center(width)]: CPython puts [marg/2 + (marg & width & 1)] blanks on
    the left and the rest on the right. *)
Definition center (s : str) (width : Z) : str :=
  if len s >=? width then s
  else
    let marg := width - len s in
    let left := marg / 2 + Z.land (Z.land marg width) 1 in
    spaces left ++ s ++ spaces (marg - left).

(** [s[a:b]] for integer bounds. *)
Definition clamp (n i : Z) : Z := if i <? 0 then Z.max 0 (n + i) else Z.min i n.
Definition slice {A} (s : list A) (a b : Z) : list A :=
  let lo := clamp (len s) a in
  let hi := clamp (len s) b in
  take (Z.to_nat (hi - lo)) (drop (Z.to_nat lo) s).

(** [sep.join(lines)]. *)
Fixpoint join (sep : str) (lines : list str) : str :=
  match lines with
  | [] => []
  | [l] => l
  | l :: rest => l ++ sep ++ join sep rest
  end.

(** A stable sort, as [list.sort] and [sorted] are: [x] goes in front of the
    first element that is not below it, so equal elements keep their order. *)
Fixpoint insort {A} (le : A → A → bool) (x : A) (l : list A) : list A :=
  match l with
  | [] => [x]
  | y :: l' => if le x y then x :: y :: l' else y :: insort le x l'
  end.
Definition sorted {A} (le : A → A → bool) (l : list A) : list A := foldr (insort le) [] l.

(** Comparison of two [str], as [<=] on Python strings: lexicographic on
    code points. *)
Fixpoint str_le (a b : str) : bool :=
  match a, b with
  | [], _ => true
  | _ :: _, [] => false
  | x :: a', y :: b' => if (x <? y)%N then true else if (x =? y)%N then str_le a' b' else false
  end.

(** Exceptions the module can meet, the texts handed to [sys.stdout] by
    [print] (one entry for each call, whatever the text holds), and the monad
    that carries both. *)
Inductive exn := re_error (pattern : str) | KeyError | UnicodeEncodeError.

Definition M (A : Type) : Type := list str * (exn + A).

Definition ret {A} (a : A) : M A := ([], inr a).
Definition raise {A} (e : exn) : M A := ([], inl e).

(** [print(s)]: the stream encodes the text before it writes anything, so a
    text with a code point it cannot encode raises [UnicodeEncodeError] and
    leaves nothing on [sys.stdout]. *)
Definition print `{U : UnicodeData} (s : str) : M unit :=
  if forallb can_encode s then ([s], inr tt) else raise UnicodeEncodeError.

Definition bind {A B} (m : M A) (k : A → M B) : M B :=
  match m with
  | (out, inl e) => (out, inl e)
  | (out, inr a) => let '(out', r) := k a in (out ++ out', r)
  end.

Definition lift {A} (r : exn + A) : M A := ([], r).

Definition stdout {A} (m : M A) : list str := m.1.
Definition outcome {A} (m : M A) : exn + A := m.2.

End Py.

Import Py.

Notation "'let*' x ':=' m 'in' k" := (Py.bind m (λ x, k))
  (at level 10, x name, m at level 100, k at level 200, only parsing).

(** ** The fragment of [re] that the detection patterns use *)

Module Re.

(** A pattern is an alternation [b1|b2|...] of branches; a branch is a
    sequence of atoms, each possibly followed by [?]. *)
Inductive atom :=
| Chr (c : N)   (* a literal code point *)
| Space         (* \s *)
| Boundary.     (* \b *)

Inductive item :=
| One (a : atom)
| Opt (a : atom).  (* a? , greedy *)

Abbreviation branch := (list item).
Abbreviation regex := (list branch).

(** Characters with a meaning of their own in a pattern. *)
Definition special (c : N) : bool :=
  bool_decide (c ∈ lit ".^$*+?{}[]()|\").

(** [re.compile]: [cur] is the branch being read and [done] the branches
    already closed, both reversed.  Anything outside the fragment is
    rejected. *)
Fixpoint compile_from (p : str) (cur : branch) (done : list branch) : option regex :=
  match p with
  | [] => Some (reverse (reverse cur :: done))
  | c :: p' =>
    if (c =? 124)%N then compile_from p' [] (reverse cur :: done)          (* | *)
    else if (c =? 63)%N then                                               (* ? *)
      match cur with
      | One (Chr d) :: cur' => compile_from p' (Opt (Chr d) :: cur') done
      | One Space :: cur' => compile_from p' (Opt Space :: cur') done
      | _ => None
      end
    else if (c =? 92)%N then                                               (* \ *)
      match p' with
      | e :: p'' =>
        if (e =? 98)%N then compile_from p'' (One Boundary :: cur) done    (* \b *)
        else if (e =? 115)%N then compile_from p'' (One Space :: cur) done (* \s *)
        else None
      | [] => None
      end
    else if special c then None
    else compile_from p' (One (Chr c) :: cur) done
  end.

Definition compile (p : str) : option regex := compile_from p [] [].

Section matching.
Context `{U : UnicodeData}.

(** [\b] at position [i] of [t]: the code points on the two sides differ in
    being word characters; outside the text counts as a non-word. *)
Definition word_at (t : str) (i : nat) : bool := from_option is_word false (t !! i).

Definition at_boundary (t : str) (i : nat) : bool :=
  let that := match i with O => false | S k => word_at t k end in
  xorb that (word_at t i).

(** One atom at position [i]: the position after it, if it matches. *)
Definition step (a : atom) (t : str) (i : nat) : option nat :=
  match a with
  | Chr c => match t !! i with Some d => if (c =? d)%N then Some (S i) else None | None => None end
  | Space => match t !! i with Some d => if is_space d then Some (S i) else None | None => None end
  | Boundary => if at_boundary t i then Some i else None
  end.

(** A branch at position [i], by backtracking: [a?] first tries [a]. *)
Fixpoint match_branch (t : str) (b : branch) (i : nat) : option nat :=
  match b with
  | [] => Some i
  | One a :: b' => step a t i ≫= match_branch t b'
  | Opt a :: b' =>
    match step a t i ≫= match_branch t b' with
    | Some j => Some j
    | None => match_branch t b' i
    end
  end.

(** The alternation at position [i]: the first branch that matches. *)
Fixpoint match_at (t : str) (r : regex) (i : nat) : option nat :=
  match r with
  | [] => None
  | b :: r' =>
    match match_branch t b i with
    | Some j => Some j
    | None => match_at t r' i
    end
  end.

(** The scan of [re.search] over the start positions [starts]. *)
Fixpoint scan (t : str) (r : regex) (starts : list nat) : option (nat * nat) :=
  match starts with
  | [] => None
  | i :: rest =>
    match match_at t r i with
    | Some j => Some (i, j)
    | None => scan t r rest
    end
  end.

(** [re.search(pattern, t)]: the span of the leftmost match, [None] if there
    is none, [re.error] if the pattern does not compile. *)
Definition search (pattern t : str) : exn + option (nat * nat) :=
  match compile pattern with
  | None => inl (re_error pattern)
  | Some r => inr (scan t r (seq 0 (S (length t))))
  end.

(** What it means for branch [b] to match [t] from position [i] to position
    [j], without reference to the order in which the matcher tries things. *)
Inductive matches (t : str) : branch → nat → nat → Prop :=
| matches_nil i : matches t [] i i
| matches_one a b i k j :
    step a t i = Some k → matches t b k j → matches t (One a :: b) i j
| matches_take a b i k j :
    step a t i = Some k → matches t b k j → matches t (Opt a :: b) i j
| matches_skip a b i j :
    matches t b i j → matches t (Opt a :: b) i j.

(** The span from [i] to [j] is a whole word or phrase of [t]: it begins and
    ends with a word character and no word character touches it on either
    side. *)
Definition whole_word (t : str) (i j : nat) : Prop :=
  (i < j ≤ length t)%nat ∧
  word_at t i = true ∧
  word_at t (pred j) = true ∧
  match i with O => True | S k => word_at t k = false end ∧
  word_at t j = false.

(** [closes w b]: every match of [b] ends right after a word character and in
    front of a non-word, provided ([w]) the position where [b] starts is
    right after a word character. *)
Fixpoint closes (w : bool) (b : branch) : bool :=
  match b with
  | [] => false
  | [One Boundary] => w
  | One (Chr c) :: b' => closes (is_word c) b'
  | One Space :: b' => closes false b'
  | One Boundary :: b' => closes w b'
  | Opt (Chr c) :: b' => closes (w && is_word c) b'
  | Opt Space :: b' => closes false b'
  | Opt Boundary :: b' => closes w b'
  end.

(** A branch of the shape [\bc...\b] with word characters next to both
    boundaries. *)
Definition anchored (b : branch) : bool :=
  match b with
  | One Boundary :: One (Chr c) :: b' => is_word c && closes (is_word c) b'
  | _ => false
  end.

Definition anchored_pattern (p : str) : bool :=
  match compile p with
  | Some r => forallb anchored r
  | None => false
  end.

End matching.

End Re.

(** ** The data of the generator *)

(** One entry of a platform table: [{'pattern': ..., 'name': ...}]. *)
Module Entry.
Record t := make { pattern : str; name : str }.
End Entry.

Definition entry (pattern name : string) : Entry.t := Entry.make (lit pattern) (lit name).

(** A platform table, in the order the source lists its concepts. *)
Abbreviation table := (list (str * Entry.t)).

(** A detected component: [{'concept': ..., 'name': ..., 'icon': ..., 'layer': ...}]. *)
Record component := Component {
  concept : str;
  name : str;
  icon : str;
  layer : Z
}.

(** [self.chars]. *)
Record chars_t := {
  horizontal : str;
  vertical : str;
  arrow_down : str;
  arrow_right : str
}.

(** The fields [__init__] sets. *)
Record ASCIIDiagramGenerator := {
  chars : chars_t;
  service_icons : gmap str str;
  platform_services : gmap str table;
  layer_priority : gmap str Z
}.

(** The glyphs are the code points that the file's bytes decode to: each box
    character of the file is a string of three code points, each icon a string
    of three to seven. *)
Definition init_chars : chars_t := {|
  horizontal := [8218; 238; 196]%N;
  vertical := [8218; 238; 199]%N;
  arrow_down := [8218; 220; 236]%N;
  arrow_right := [8218; 220; 237]%N
|}.

Definition init_service_icons : list (str * str) := [
  (lit "user", [63743; 252; 235; 8226]%N);
  (lit "internet", [63743; 252; 229; 234]%N);
  (lit "dns", [63743; 252; 229; 231]%N);
  (lit "cdn", [63743; 252; 246; 196]%N);
  (lit "load_balancer", [8218; 246; 241; 212; 8719; 232]%N);
  (lit "api_gateway", [63743; 252; 238; 229]%N);
  (lit "compute", [63743; 252; 241; 8226; 212; 8719; 232]%N);
  (lit "serverless", [8218; 246; 176]%N);
  (lit "database_sql", [63743; 252; 243; 209; 212; 8719; 232]%N);
  (lit "database_nosql", [63743; 252; 236; 228]%N);
  (lit "cache", [63743; 252; 237; 174]%N);
  (lit "storage_object", [63743; 252; 236; 182]%N);
  (lit "storage_block", [63743; 252; 237; 230]%N);
  (lit "queue", [63743; 252; 236; 168]%N);
  (lit "notification", [63743; 252; 236; 162]%N);
  (lit "vpc", [63743; 252; 232; 8224]%N);
  (lit "security", [63743; 252; 238; 237]%N);
  (lit "iam", [63743; 252; 238; 234]%N);
  (lit "monitoring", [63743; 252; 236; 224]%N);
  (lit "container_registry", [63743; 252; 246; 162]%N);
  (lit "ci_cd", [8218; 246; 244; 212; 8719; 232]%N);
  (lit "data_warehouse", [63743; 252; 232; 182]%N);
  (lit "analytics", [63743; 252; 237; 176]%N);
  (lit "auth", [63743; 252; 238; 235]%N)
].

Definition aws_services : table := [
  (lit "user", entry "\busers?\b|\bclients?\b|\bcustomers?\b" "Users");
  (lit "internet", entry "\binternet\b|\bweb\b|\bpublic\b" "Internet");
  (lit "dns", entry "\broute\s?53\b|\bdns\b|\bdomain\b" "Route 53");
  (lit "cdn", entry "\bcloudfront\b|\bcdn\b|\bcontent delivery\b" "CloudFront");
  (lit "load_balancer", entry "\bload\s?balancer\b|\belb\b|\balb\b|\bnlb\b" "ELB/ALB");
  (lit "api_gateway", entry "\bapi\s?gateway\b|\bapi\b" "API Gateway");
  (lit "compute", entry "\bec2\b|\bserver\b|\binstance\b|\bcompute\b" "EC2 Instance");
  (lit "serverless", entry "\blambda\b|\bfunction\b" "Lambda");
  (lit "database_sql", entry "\brds\b|\bdatabase\b|\bmysql\b|\bpostgres\b|\baurora\b" "RDS");
  (lit "database_nosql", entry "\bdynamodb\b|\bnosql\b" "DynamoDB");
  (lit "cache", entry "\belasticache\b|\bcache\b|\bredis\b|\bmemcached\b" "ElastiCache");
  (lit "storage_object", entry "\bs3\b|\bbucket\b|\bobject storage\b" "S3 Bucket");
  (lit "storage_block", entry "\bebs\b|\bblock storage\b" "EBS Volume");
  (lit "queue", entry "\bsqs\b|\bqueue\b" "SQS");
  (lit "notification", entry "\bsns\b|\bnotification\b|\btopic\b" "SNS");
  (lit "vpc", entry "\bvpc\b|\bnetwork\b" "VPC");
  (lit "security", entry "\bsecurity group\b|\bwaf\b|\bshield\b" "Security");
  (lit "iam", entry "\biam\b|\bidentity\b|\brole\b|\buser\b" "IAM");
  (lit "monitoring", entry "\bcloudwatch\b|\bmonitor\b|\blog\b|\bmetric\b" "CloudWatch");
  (lit "container_registry", entry "\becr\b|\bcontainer registry\b" "ECR");
  (lit "ci_cd", entry "\bcodebuild\b|\bcodepipeline\b|\bcodecommit\b|\bcodedeploy\b|\bci/cd\b" "CI/CD");
  (lit "auth", entry "\bcognito\b|\bauthentication\b|\bauth\b" "Cognito")
].

Definition gcp_services : table := [
  (lit "user", entry "\busers?\b|\bclients?\b|\bcustomers?\b" "Users");
  (lit "internet", entry "\binternet\b|\bweb\b|\bpublic\b" "Internet");
  (lit "dns", entry "\bcloud dns\b|\bdns\b" "Cloud DNS");
  (lit "cdn", entry "\bcloud cdn\b|\bcdn\b" "Cloud CDN");
  (lit "load_balancer", entry "\bcloud load balancing\b|\bload balancer\b" "Load Balancer");
  (lit "api_gateway", entry "\bapi gateway\b|\bapigee\b" "API Gateway");
  (lit "compute", entry "\bcompute engine\b|\bvm\b|\binstance\b|\bgce\b" "Compute Engine");
  (lit "serverless", entry "\bcloud functions\b|\bcloud run\b|\bfunctions\b" "Cloud Functions/Run");
  (lit "database_sql", entry "\bcloud sql\b|\bspanner\b|\bdatabase\b|\bmysql\b|\bpostgres\b" "Cloud SQL/Spanner");
  (lit "database_nosql", entry "\bfirestore\b|\bdatastore\b|\bbigtable\b|\bnosql\b" "Firestore/Bigtable");
  (lit "cache", entry "\bmemorystore\b|\bcache\b|\bredis\b|\bmemcached\b" "Memorystore");
  (lit "storage_object", entry "\bcloud storage\b|\bbucket\b|\bgcs\b" "Cloud Storage");
  (lit "storage_block", entry "\bpersistent disk\b|\bdisk\b" "Persistent Disk");
  (lit "queue", entry "\bpub/sub\b|\bqueue\b|\btopic\b" "Pub/Sub");
  (lit "notification", entry "\bpub/sub\b|\bnotification\b" "Pub/Sub");
  (lit "vpc", entry "\bvpc network\b|\bnetwork\b" "VPC Network");
  (lit "security", entry "\bfirewall rule\b|\bcloud armor\b|\bsecurity\b" "Firewall/Armor");
  (lit "iam", entry "\biam\b|\bidentity\b|\bservice account\b" "IAM");
  (lit "monitoring", entry "\bcloud monitoring\b|\bcloud logging\b|\boperations\b" "Cloud Monitoring");
  (lit "container_registry", entry "\bartifact registry\b|\bcontainer registry\b" "Artifact Registry");
  (lit "ci_cd", entry "\bcloud build\b|\bcloud deploy\b|\bcloud source repositories\b" "Cloud Build");
  (lit "data_warehouse", entry "\bbigquery\b|\bdata warehouse\b" "BigQuery");
  (lit "analytics", entry "\bdataflow\b|\bdataproc\b|\banalytics\b" "Dataflow/Dataproc");
  (lit "auth", entry "\bidentity platform\b|\bfirebase auth\b|\bauthentication\b" "Identity Platform")
].

Definition azure_services : table := [
  (lit "user", entry "\busers?\b|\bclients?\b|\bcustomers?\b" "Users");
  (lit "internet", entry "\binternet\b|\bweb\b|\bpublic\b" "Internet");
  (lit "dns", entry "\bazure dns\b|\bdns\b" "Azure DNS");
  (lit "cdn", entry "\bazure cdn\b|\bcdn\b" "Azure CDN");
  (lit "load_balancer", entry "\bload balancer\b|\bapplication gateway\b" "Load Balancer");
  (lit "api_gateway", entry "\bapi management\b|\bapi\b" "API Management");
  (lit "compute", entry "\bvirtual machine\b|\bvm\b|\binstance\b" "Virtual Machine");
  (lit "serverless", entry "\bazure functions\b|\bfunctions\b|\bcontainer apps\b" "Azure Functions");
  (lit "database_sql", entry "\bazure sql database\b|\bsql server\b|\bdatabase\b" "Azure SQL DB");
  (lit "database_nosql", entry "\bcosmos db\b|\bnosql\b" "Cosmos DB");
  (lit "cache", entry "\bazure cache for redis\b|\bcache\b|\bredis\b" "Redis Cache");
  (lit "storage_object", entry "\bblob storage\b|\bcontainer\b|\bobject storage\b" "Blob Storage");
  (lit "storage_block", entry "\bmanaged disk\b|\bdisk\b" "Managed Disk");
  (lit "queue", entry "\bazure queue storage\b|\bservice bus\b|\bqueue\b" "Queue/Service Bus");
  (lit "notification", entry "\bevent grid\b|\bnotification hub\b" "Event Grid/Hub");
  (lit "vpc", entry "\bvirtual network\b|\bvnet\b|\bnetwork\b" "Virtual Network");
  (lit "security", entry "\bnetwork security group\b|\bnsg\b|\bazure firewall\b|\bwaf\b" "NSG/Firewall");
  (lit "iam", entry "\bazure active directory\b|\bentra id\b|\brbac\b|\bidentity\b" "Entra ID (AD)");
  (lit "monitoring", entry "\bazure monitor\b|\blog analytics\b|\bmonitor\b" "Azure Monitor");
  (lit "container_registry", entry "\bazure container registry\b|\bacr\b" "ACR");
  (lit "ci_cd", entry "\bazure devops\b|\bpipelines\b|\bgithub actions\b" "Azure DevOps");
  (lit "data_warehouse", entry "\bsynapse analytics\b|\bdata warehouse\b" "Synapse Analytics");
  (lit "analytics", entry "\bdata factory\b|\bdatabricks\b|\banalytics\b" "Data Factory");
  (lit "auth", entry "\bazure active directory b2c\b|\bentra external id\b|\bauth\b" "Entra External ID")
].

Definition init_layer_priority : list (str * Z) := [
  (lit "user", 0);
  (lit "internet", 0);
  (lit "dns", 1);
  (lit "cdn", 1);
  (lit "load_balancer", 2);
  (lit "api_gateway", 2);
  (lit "auth", 2);
  (lit "compute", 3);
  (lit "serverless", 3);
  (lit "cache", 4);
  (lit "queue", 4);
  (lit "notification", 4);
  (lit "database_sql", 5);
  (lit "database_nosql", 5);
  (lit "data_warehouse", 5);
  (lit "storage_object", 6);
  (lit "storage_block", 6);
  (lit "analytics", 6);
  (lit "vpc", 7);
  (lit "security", 7);
  (lit "iam", 7);
  (lit "monitoring", 7);
  (lit "container_registry", 8);
  (lit "ci_cd", 8)
].

Definition __init__ : ASCIIDiagramGenerator := {|
  chars := init_chars;
  service_icons := list_to_map init_service_icons;
  platform_services :=
    <[lit "aws" := aws_services]> (<[lit "gcp" := gcp_services]> (<[lit "azure" := azure_services]> ∅));
  layer_priority := list_to_map init_layer_priority
|}.

(** The literals of [parse_components] and [build_diagram_text]. *)
Definition unknown_icon : str := [8218; 249; 236]%N.
Definition top_left : str := [8218; 238; 229]%N.
Definition top_right : str := [8218; 238; 234]%N.
Definition tee_left : str := [8218; 238; 250]%N.
Definition tee_right : str := [8218; 238; 167]%N.
Definition bottom_left : str := [8218; 238; 238]%N.
Definition bottom_right : str := [8218; 238; 242]%N.
Definition bar : str := [8218; 238; 199]%N.
Definition nl : str := [10%N].
Definition fence_open : str := lit "```text" ++ nl.
Definition fence_close : str := nl ++ lit "```".

(** The table built in [parse_components] for an unknown platform. *)
Definition generic_patterns : table := [
  (lit "user", entry "users?" "User");
  (lit "load_balancer", entry "load balancer" "Load Balancer");
  (lit "compute", entry "server|compute|instance" "Compute");
  (lit "database_sql", entry "database|sql" "Database");
  (lit "storage_object", entry "storage|bucket" "Storage")
].

(** ** The methods *)

Section generator.
Context `{U : UnicodeData}.

(** The sort key [(x['layer'], x['name'])] and the order of such tuples. *)
Definition sort_key (x : component) : Z * str := (layer x, name x).
Definition key_le (a b : Z * str) : bool :=
  (a.1 <? b.1) || ((a.1 =? b.1) && str_le a.2 b.2).
Definition component_le (x y : component) : bool := key_le (sort_key x) (sort_key y).

(** The dict appended for a detected concept; an absent glyph or layer is
    replaced by the default of [.get]. *)
Definition make_component (self : ASCIIDiagramGenerator) (concept : str) (details : Entry.t)
    : component :=
  {| concept := concept;
     name := Entry.name details;
     icon := default unknown_icon (service_icons self !! concept);
     layer := default 99 (layer_priority self !! concept) |}.

(** The loop of [parse_components] over [platform_patterns.items()]. *)
Fixpoint detect (self : ASCIIDiagramGenerator) (plan_lower : str) (items : table)
    (added_concepts : gset str) (components : list component) : exn + list component :=
  match items with
  | [] => inr components
  | (concept, details) :: rest =>
    match Re.search (Entry.pattern details) plan_lower with
    | inl e => inl e
    | inr None => detect self plan_lower rest added_concepts components
    | inr (Some _) =>
      if bool_decide (concept ∉ added_concepts)
      then detect self plan_lower rest ({[concept]} ∪ added_concepts)
             (components ++ [make_component self concept details])
      else detect self plan_lower rest added_concepts components
    end
  end.

Definition unknown_platform_warning (platform : str) : str :=
  lit "Warning: Unknown platform '" ++ platform ++ lit "'. Using generic parsing.".

(** [platform_services.get(platform.lower())], replaced by the generic table
    when it is [None] or empty; the warning is printed before the generic
    table is built. *)
Definition select_patterns (self : ASCIIDiagramGenerator) (platform : str) : M table :=
  match platform_services self !! lower platform with
  | Some (e :: es) => ret (e :: es)
  | _ => let* _ := print (unknown_platform_warning platform) in ret generic_patterns
  end.

Definition parse_components (self : ASCIIDiagramGenerator) (plan_text platform : str)
    : M (list component) :=
  let plan_lower := lower plan_text in
  let* platform_patterns := select_patterns self platform in
  let* components := lift (detect self plan_lower platform_patterns ∅ []) in
  ret (sorted component_le components).

(** [layers[layer].append(comp)], with [layers[layer] = []] first when the
    key is new; [layers] keeps the order in which its keys were added. *)
Fixpoint layers_append (layers : list (Z * list component)) (l : Z) (comp : component)
    : list (Z * list component) :=
  match layers with
  | [] => [(l, [comp])]
  | (k, comps) :: rest =>
    if k =? l then (k, comps ++ [comp]) :: rest
    else (k, comps) :: layers_append rest l comp
  end.

Definition group_layers (components : list component) : list (Z * list component) :=
  foldl (λ layers comp, layers_append layers (layer comp) comp) [] components.

Fixpoint layers_get (layers : list (Z * list component)) (l : Z) : option (list component) :=
  match layers with
  | [] => None
  | (k, comps) :: rest => if k =? l then Some comps else layers_get rest l
  end.

(** [f"{c['icon']} {c['name']}"] *)
Definition label (c : component) : str := icon c ++ lit " " ++ name c.

(** [sum(len(label) + 4 for c in comps)] *)
Definition layer_width (comps : list component) : Z :=
  foldr (λ c acc, (len (label c) + 4) + acc) 0 comps.

Definition max_label_width (layers : list (Z * list component)) : Z :=
  foldl (λ m kv, Z.max m (layer_width kv.2)) 0 layers.

Definition box_width (components : list component) (title : str) : Z :=
  Z.max (Z.max (len title + 4) (max_label_width (group_layers components))) 40.

Definition border (self : ASCIIDiagramGenerator) (l r : str) (box_width : Z) : str :=
  l ++ repeat_str (horizontal (chars self)) box_width ++ r.

Definition title_row (title : str) (box_width : Z) : str :=
  bar ++ lit " " ++ center title (box_width - 2) ++ lit " " ++ bar.

Definition component_row (comp : component) (box_width : Z) : str :=
  bar ++ lit " " ++ ljust (label comp) (box_width - 2) ++ lit " " ++ bar.

Definition connector_row (self : ASCIIDiagramGenerator) (box_width : Z) : str :=
  let arrow_line := center (arrow_down (chars self)) box_width in
  bar ++ slice arrow_line 1 (-1) ++ bar.

(** The loop over [enumerate(sorted_layers)]; [i] is the index of the head of
    [todo] and [n] is [len(sorted_layers)]. *)
Fixpoint layer_rows (self : ASCIIDiagramGenerator) (layers : list (Z * list component))
    (box_width : Z) (todo : list Z) (i n : Z) : exn + list str :=
  match todo with
  | [] => inr []
  | layer_num :: rest =>
    match layers_get layers layer_num with
    | None => inl KeyError
    | Some layer_components =>
      let rows := (λ comp, component_row comp box_width) <$> layer_components in
      let connector := if i <? n - 1 then [connector_row self box_width] else [] in
      match layer_rows self layers box_width rest (i + 1) n with
      | inl e => inl e
      | inr more => inr (rows ++ connector ++ more)
      end
    end
  end.

(** The list [diagram_lines] of a non-empty component list. *)
Definition diagram_lines (self : ASCIIDiagramGenerator) (components : list component)
    (title : str) : exn + list str :=
  let layers := group_layers components in
  let box_width := box_width components title in
  let sorted_layers := sorted Z.leb (layers.*1) in
  match layer_rows self layers box_width sorted_layers 0 (len sorted_layers) with
  | inl e => inl e
  | inr rows =>
    inr ([border self top_left top_right box_width;
          title_row title box_width;
          border self tee_left tee_right box_width]
         ++ rows ++
         [border self bottom_left bottom_right box_width])
  end.

Definition no_components_text (title : str) : str :=
  fence_open ++ lit "No specific components detected for " ++ title ++ lit "." ++ fence_close.

Definition build_diagram_text (self : ASCIIDiagramGenerator) (components : list component)
    (title : str) : exn + str :=
  match components with
  | [] => inr (no_components_text title)
  | _ :: _ =>
    match diagram_lines self components title with
    | inl e => inl e
    | inr lines => inr (fence_open ++ join nl lines ++ fence_close)
    end
  end.

Definition platform_missing_text : str :=
  fence_open ++ lit "Error: Target platform not specified." ++ fence_close.

Definition create_architecture_diagram (self : ASCIIDiagramGenerator)
    (plan_text platform title_prefix : str) : M str :=
  match platform with
  | [] => ret platform_missing_text
  | _ :: _ =>
    let platform_name := upper platform in
    let full_title := title_prefix ++ lit " on " ++ platform_name in
    let* components := parse_components self plan_text platform in
    lift (build_diagram_text self components full_title)
  end.

Definition no_plan_text : str :=
  fence_open ++ lit "No architecture plan provided to generate diagram." ++ fence_close.

Definition no_platform_text : str :=
  fence_open ++ lit "Target platform (aws, gcp, azure) must be specified." ++ fence_close.

(** The tool entry point. *)
Definition generate_ascii_diagram (plan_text target_platform : str) : M str :=
  match plan_text with
  | [] => ret no_plan_text
  | _ :: _ =>
    match target_platform with
    | [] => ret no_platform_text
    | _ :: _ =>
      let generator := __init__ in
      create_architecture_diagram generator plan_text target_platform (lit "Architecture")
    end
  end.

End generator.


(** ** Notions the properties are stated with *)

Section notions.
Context `{U : UnicodeData}.

(** The pattern of a table entry finds a match in [t]. *)
Definition hits (t : str) (kv : str * Entry.t) : bool :=
  match Re.search (Entry.pattern kv.2) t with
  | inr (Some _) => true
  | _ => false
  end.

(** The components of the entries of [items] whose pattern finds a match, in
    the order of [items]. *)
Definition detected (self : ASCIIDiagramGenerator) (t : str) (items : table) : list component :=
  (λ kv, make_component self kv.1 kv.2) <$> filter (λ kv, hits t kv = true) items.

(** The table [parse_components] works with. *)
Definition selected (self : ASCIIDiagramGenerator) (platform : str) : table :=
  match platform_services self !! lower platform with
  | Some (e :: es) => e :: es
  | _ => generic_patterns
  end.

(** Every pattern of every platform table compiles. *)
Definition patterns_compile (tbl : table) : Prop :=
  Forall (λ kv, is_Some (Re.compile (Entry.pattern kv.2))) tbl.

Definition well_formed (self : ASCIIDiagramGenerator) : Prop :=
  map_Forall (λ _ tbl, patterns_compile tbl) (platform_services self).

(** [print] can write the warning for [platform]: [sys.stdout] can encode
    every code point of it. *)
Definition warning_prints (platform : str) : bool :=
  forallb can_encode (unknown_platform_warning platform).

(** [parse_components] gets a table to work with: the table of the platform,
    or the generic table once the warning is printed. *)
Definition resolves (self : ASCIIDiagramGenerator) (platform : str) : bool :=
  match platform_services self !! lower platform with
  | Some (_ :: _) => true
  | _ => warning_prints platform
  end.

(** Two platform tokens that differ at most in letter case: they are equal
    once case is folded. *)
Definition case_variant (a b : str) : Prop := lower a = lower b.

(** Code point by code point: equal, or the two cases of one ASCII letter. *)
Definition same_letter (x y : N) : Prop :=
  x = y ∨
  (between 65 90 x = true ∧ y = (x + 32)%N) ∨
  (between 65 90 y = true ∧ x = (y + 32)%N).

(** [w] occurs in [t] as a word of its own: no word character in front of it
    or behind it. *)
Definition standalone (w t : str) : Prop :=
  ∃ pre post, t = pre ++ w ++ post ∧
    from_option is_word false (last pre) = false ∧
    from_option is_word false (head post) = false.

(** The total of [len(label) + 4] over the components of [components] that
    lie in layer [l]. *)
Definition layer_total (components : list component) (l : Z) : Z :=
  layer_width (filter (λ c, layer c = l) components).

Definition max_of (l : list Z) : Z := foldr Z.max 0 l.

(** The order the component list is sorted in: layer, then display name. *)
Definition layer_then_name (x y : component) : Prop :=
  layer x < layer y ∨ (layer x = layer y ∧ str_le (name x) (name y) = true).

End notions.

Definition known_platforms : list str := [lit "aws"; lit "gcp"; lit "azure"].

(** One turn of the grouping loop of [build_diagram_text]. *)
Definition layer_step (layers : list (Z * list component)) (comp : component) :=
  layers_append layers (layer comp) comp.

(** What [layers] holds once the components [cs] have been put in: for each
    layer that occurs, the components of that layer in their order. *)
Definition groups (layers : list (Z * list component)) (cs : list component) : Prop :=
  NoDup layers.*1 ∧
  ∀ k, layers_get layers k =
       match filter (λ c, layer c = k) cs with [] => None | v => Some v end.

(** A generator with one platform, one concept, and no glyph or layer table. *)
Definition bare_generator : ASCIIDiagramGenerator := {|
  chars := init_chars;
  service_icons := ∅;
  platform_services := {[ lit "lab" := [(lit "db", entry "\bdb\b" "DB")] ]};
  layer_priority := ∅
|}.

(** [w] occurs somewhere in [t]. *)
Definition occurs (w t : str) : Prop := ∃ pre post, t = pre ++ w ++ post.

(** The rows between the separator and the bottom border, for the layers
    [ks]: layer by layer the rows of the components of that layer, and a
    connector row behind every layer but the last. *)
Fixpoint layered_rows (self : ASCIIDiagramGenerator) (components : list component)
    (box_width : Z) (ks : list Z) : list str :=
  match ks with
  | [] => []
  | k :: rest =>
    ((λ comp, component_row comp box_width) <$> filter (λ c, layer c = k) components)
    ++ match rest with [] => [] | _ :: _ => [connector_row self box_width] end
    ++ layered_rows self components box_width rest
  end.

(** The concept of a table entry has a glyph other than the placeholder and a
    layer between 0 and 8 in the tables of [__init__]. *)
Definition catalogued (kv : str * Entry.t) : bool :=
  match service_icons __init__ !! kv.1, layer_priority __init__ !! kv.1 with
  | Some g, Some l => bool_decide (g ≠ unknown_icon) && (0 <=? l) && (l <=? 8)
  | _, _ => false
  end.

(** The title [create_architecture_diagram] builds for the entry point. *)
Definition full_title `{U : UnicodeData} (platform : str) : str :=
  lit "Architecture" ++ lit " on " ++ upper platform.

(** The rows of a component list in one pass: the row of each component, in
    the order of the list, and a connector row wherever the next component
    lies in another layer. *)
Fixpoint rows_with_connectors (self : ASCIIDiagramGenerator) (box_width : Z)
    (components : list component) : list str :=
  match components with
  | [] => []
  | c :: rest =>
    component_row c box_width
    :: match rest with
       | c' :: _ => if layer c =? layer c' then [] else [connector_row self box_width]
       | [] => []
       end
    ++ rows_with_connectors self box_width rest
  end.

(** A component list in ascending order of layer. *)
Definition by_layer (x y : component) : Prop := layer x ≤ layer y.

(** An environment that knows nothing outside ASCII, to evaluate the program
    on ASCII texts, where the tables are not consulted. *)
#[local] Instance ascii_only : UnicodeData :=
  {| uni_isalnum := λ _, false; uni_isspace := λ _, false;
     uni_lower := λ c, [c]; uni_upper := λ c, [c];
     stdout_encodes := λ _, false |}.

(** An environment whose [sys.stdout] is UTF-8 with the [strict] error
    handler, as the interpreter sets it up by default: every code point can be
    printed but the surrogates U+D800..U+DFFF.  It serves to evaluate the
    program on texts of ASCII characters and surrogates, which [str.lower] and
    [str.upper] leave as they are. *)
Definition utf8_stdout : UnicodeData :=
  {| uni_isalnum := λ _, false; uni_isspace := λ _, false;
     uni_lower := λ c, [c]; uni_upper := λ c, [c];
     stdout_encodes := λ c, negb (between 55296 57343 c) |}.

(** ** The matcher *)

Module ReFacts.
Import Re.

Section facts.
Context `{U : UnicodeData}.

Lemma step_bounds a t i k : (i ≤ length t)%nat → step a t i = Some k → (i ≤ k ≤ length t)%nat.
Proof.
  intros Hi. destruct a as [c| |]; simpl.
  - destruct (t !! i) as [d|] eqn:E; [|done].
    apply lookup_lt_Some in E. destruct (c =? d)%N; [|done]. intros [= <-]. lia.
  - destruct (t !! i) as [d|] eqn:E; [|done].
    apply lookup_lt_Some in E. destruct (is_space d); [|done]. intros [= <-]. lia.
  - destruct (at_boundary t i); [|done]. intros [= <-]. lia.
Qed.

Lemma matches_bounds t b i j : matches t b i j → (i ≤ length t)%nat → (i ≤ j ≤ length t)%nat.
Proof.
  induction 1 as [i|a b i k j Hs _ IH|a b i k j Hs _ IH|a b i j _ IH]; intros Hi.
  - lia.
  - apply step_bounds in Hs; [|done]. specialize (IH ltac:(lia)). lia.
  - apply step_bounds in Hs; [|done]. specialize (IH ltac:(lia)). lia.
  - auto.
Qed.

(** The backtracking matcher finds only matches ... *)
Lemma match_branch_sound t b : ∀ i j, match_branch t b i = Some j → matches t b i j.
Proof.
  induction b as [|[a|a] b IH]; simpl; intros i j H.
  - injection H as <-. constructor.
  - destruct (step a t i) as [k|] eqn:E; [|done]. simpl in H. eauto using matches.
  - destruct (step a t i) as [k|] eqn:E; simpl in H.
    + destruct (match_branch t b k) as [j'|] eqn:E'.
      * injection H as <-. eauto using matches.
      * eauto using matches.
    + eauto using matches.
Qed.

(** ... and finds one whenever there is one. *)
Lemma match_branch_complete t b i j : matches t b i j → is_Some (match_branch t b i).
Proof.
  induction 1 as [i|a b i k j Hs _ IH|a b i k j Hs _ IH|a b i j _ IH]; simpl.
  - eauto.
  - rewrite Hs. done.
  - rewrite Hs. simpl. destruct IH as [j' ->]. eauto.
  - destruct (step a t i ≫= match_branch t b); eauto.
Qed.

Lemma match_at_sound t r i j :
  match_at t r i = Some j → ∃ b, b ∈ r ∧ matches t b i j.
Proof.
  induction r as [|b r IH]; simpl; [done|].
  destruct (match_branch t b i) as [j'|] eqn:E.
  - intros [= <-]. exists b. split; [left|by apply match_branch_sound].
  - intros H. destruct (IH H) as (b' & ? & ?). exists b'. split; [by right|done].
Qed.

Lemma match_at_complete t r b i j :
  b ∈ r → matches t b i j → is_Some (match_at t r i).
Proof.
  induction r as [|b' r IH]; simpl; intros Hin Hm; [by apply elem_of_nil in Hin|].
  destruct (match_branch t b' i) eqn:E; [eauto|].
  apply elem_of_cons in Hin as [->|Hin]; [|eauto].
  apply match_branch_complete in Hm. rewrite E in Hm. by destruct Hm.
Qed.

Lemma scan_sound t r starts i j :
  scan t r starts = Some (i, j) → i ∈ starts ∧ ∃ b, b ∈ r ∧ matches t b i j.
Proof.
  induction starts as [|k starts IH]; simpl; [done|].
  destruct (match_at t r k) as [j'|] eqn:E.
  - intros [= <- <-]. split; [left|by eapply match_at_sound].
  - intros H. destruct (IH H) as [? ?]. split; [by right|done].
Qed.

Lemma scan_complete t r starts b i j :
  i ∈ starts → b ∈ r → matches t b i j → is_Some (scan t r starts).
Proof.
  induction starts as [|k starts IH]; simpl; intros Hi Hb Hm; [by apply elem_of_nil in Hi|].
  destruct (match_at t r k) eqn:E; [eauto|].
  apply elem_of_cons in Hi as [->|Hi]; [|eauto].
  eapply match_at_complete in Hm; [|done]. rewrite E in Hm. by destruct Hm.
Qed.

(** *** Anchored branches match whole words only *)

Lemma step_chr t c i k :
  step (Chr c) t i = Some k → k = S i ∧ t !! i = Some c.
Proof.
  simpl. destruct (t !! i) as [d|]; [|done].
  destruct (N.eqb_spec c d) as [->|]; [|done]. by intros [= <-].
Qed.

Lemma step_boundary t i k :
  step Boundary t i = Some k → k = i ∧ at_boundary t i = true.
Proof. simpl. destruct (at_boundary t i); [|done]. by intros [= <-]. Qed.

Lemma word_at_lookup t i c : t !! i = Some c → word_at t i = is_word c.
Proof. unfold word_at. by intros ->. Qed.

Lemma closes_spec t b : ∀ w i j,
  closes w b = true →
  (w = true → ∃ k, i = S k ∧ word_at t k = true) →
  matches t b i j →
  (∃ k, j = S k ∧ word_at t k = true) ∧ word_at t j = false.
Proof.
  induction b as [|it b IH]; intros w i j Hc Hw Hm; [done|].
  destruct it as [[c| |]|[c| |]].
  - inversion Hm as [|? ? ? k ? Hs Hm'| |]; subst.
    apply step_chr in Hs as [-> Hl].
    apply (IH (is_word c) (S i) j); [by destruct b|intros Hc'|done].
    exists i. by rewrite (word_at_lookup _ _ _ Hl).
  - inversion Hm as [|? ? ? k ? Hs Hm'| |]; subst.
    apply (IH false k j); [by destruct b|done|done].
  - inversion Hm as [|? ? ? k ? Hs Hm'| |]; subst.
    apply step_boundary in Hs as [-> Hb].
    destruct b as [|it' b'].
    + simpl in Hc. subst w. inversion Hm'; subst.
      destruct Hw as (k & -> & Hk); [done|]. split; [by exists k|].
      unfold at_boundary in Hb. rewrite Hk in Hb. by destruct (word_at t (S k)).
    + by apply (IH w i j).
  - inversion Hm as [| |? ? ? k ? Hs Hm'|? ? ? ? Hm']; subst.
    + apply step_chr in Hs as [-> Hl].
      apply (IH (w && is_word c) (S i) j); [by destruct b| |done].
      intros [_ Hc']%andb_true_iff. exists i. by rewrite (word_at_lookup _ _ _ Hl).
    + apply (IH (w && is_word c) i j); [by destruct b| |done].
      intros [-> _]%andb_true_iff. by apply Hw.
  - inversion Hm as [| |? ? ? k ? Hs Hm'|? ? ? ? Hm']; subst.
    + apply (IH false k j); [by destruct b|done|done].
    + apply (IH false i j); [by destruct b|done|done].
  - inversion Hm as [| |? ? ? k ? Hs Hm'|? ? ? ? Hm']; subst.
    + apply step_boundary in Hs as [-> _]. apply (IH w i j); [by destruct b|done|done].
    + apply (IH w i j); [by destruct b|done|done].
Qed.

Lemma anchored_spec t b i j :
  anchored b = true → matches t b i j → whole_word t i j.
Proof.
  destruct b as [|[[| |]|] [|[[c| |]|] b]]; try done. simpl.
  intros [Hc Hcl]%andb_true_iff Hm.
  inversion Hm as [|? ? ? k ? Hs Hm'| |]; subst.
  apply step_boundary in Hs as [-> Hb].
  inversion Hm' as [|? ? ? k ? Hs Hm''| |]; subst.
  apply step_chr in Hs as [-> Hl].
  pose proof (word_at_lookup _ _ _ Hl) as Hwi. rewrite Hc in Hwi.
  destruct (closes_spec t b (is_word c) (S i) j Hcl) as [(k & -> & Hk) Hj]; [|done|].
  { intros _. by exists i. }
  pose proof (lookup_lt_Some _ _ _ Hl).
  pose proof (matches_bounds _ _ _ _ Hm'' ltac:(lia)).
  repeat split; simpl; try done; try lia.
  unfold at_boundary in Hb. rewrite Hwi in Hb.
  destruct i as [|i']; [done|]. by destruct (word_at t i').
Qed.

Lemma search_sound p t i j :
  search p t = inr (Some (i, j)) →
  ∃ r b, compile p = Some r ∧ b ∈ r ∧ (i ≤ length t)%nat ∧ matches t b i j.
Proof.
  unfold search. destruct (compile p) as [r|]; [|done]. intros H.
  assert (scan t r (seq 0 (S (length t))) = Some (i, j)) as Hs by congruence.
  apply scan_sound in Hs as (Hi & b & Hb & Hm).
  apply elem_of_seq in Hi. exists r, b. repeat split; [done|lia|done].
Qed.

Lemma search_whole_word p t i j :
  anchored_pattern p = true → search p t = inr (Some (i, j)) → whole_word t i j.
Proof.
  intros Hr Hs. apply search_sound in Hs as (r & b & Hc & Hb & _ & Hm).
  unfold anchored_pattern in Hr. rewrite Hc in Hr.
  apply (anchored_spec t b); [|done].
  rewrite forallb_forall in Hr. apply Hr. by apply list_elem_of_In.
Qed.

(** *** A match survives text added behind a non-word character *)

Lemma word_at_app t u k :
  (k ≤ length t)%nat → from_option is_word false (head u) = false →
  word_at (t ++ u) k = word_at t k.
Proof.
  intros Hk Hu. unfold word_at.
  destruct (decide (k < length t)%nat) as [Hlt|Hge].
  - by rewrite lookup_app_l.
  - assert (k = length t) as -> by lia.
    rewrite lookup_app_r, Nat.sub_diag, (lookup_ge_None_2 t) by lia.
    by rewrite <-head_lookup.
Qed.

Lemma step_app a t u i k :
  (i ≤ length t)%nat → from_option is_word false (head u) = false →
  step a t i = Some k → step a (t ++ u) i = Some k.
Proof.
  intros Hi Hu. destruct a as [c| |]; simpl.
  - destruct (t !! i) as [d|] eqn:E; [|done].
    by rewrite (lookup_app_l_Some _ _ _ _ E).
  - destruct (t !! i) as [d|] eqn:E; [|done].
    by rewrite (lookup_app_l_Some _ _ _ _ E).
  - unfold at_boundary. rewrite (word_at_app t u i) by done.
    destruct i as [|i']; [done|]. by rewrite (word_at_app t u i') by (done || lia).
Qed.

Lemma matches_app t u b i j :
  from_option is_word false (head u) = false →
  matches t b i j → (i ≤ length t)%nat → matches (t ++ u) b i j.
Proof.
  intros Hu. induction 1 as [i|a b i k j Hs _ IH|a b i k j Hs _ IH|a b i j _ IH]; intros Hi.
  - constructor.
  - pose proof (step_bounds _ _ _ _ Hi Hs). eapply matches_one; [by eapply step_app|]. apply IH. lia.
  - pose proof (step_bounds _ _ _ _ Hi Hs). eapply matches_take; [by eapply step_app|]. apply IH. lia.
  - apply matches_skip. by apply IH.
Qed.

Lemma search_is_Some p t :
  (∃ span, search p t = inr (Some span)) ↔
  ∃ r b i j, compile p = Some r ∧ b ∈ r ∧ (i ≤ length t)%nat ∧ matches t b i j.
Proof.
  split.
  - intros [[i j] H]. apply search_sound in H as (r & b & ? & ? & ? & ?). by exists r, b, i, j.
  - intros (r & b & i & j & Hc & Hb & Hi & Hm). unfold search. rewrite Hc.
    destruct (scan_complete t r (seq 0 (S (length t))) b i j) as [span Hs]; [|done|done|].
    + apply elem_of_seq. lia.
    + exists span. by rewrite Hs.
Qed.

Lemma search_app p t u span :
  from_option is_word false (head u) = false →
  search p t = inr (Some span) → ∃ span', search p (t ++ u) = inr (Some span').
Proof.
  intros Hu Hs. apply search_is_Some.
  destruct (proj1 (search_is_Some p t)) as (r & b & i & j & ? & ? & ? & ?); [by eauto|].
  exists r, b, i, j. repeat split; [done..| |].
  - rewrite length_app. lia.
  - by apply matches_app.
Qed.

(** *** A word standing alone is found by its anchored pattern *)

Lemma matches_chars t pre post b j : ∀ w,
  t = pre ++ w ++ post →
  matches t b (length pre + length w) j →
  matches t (((λ c, One (Chr c)) <$> w) ++ b) (length pre) j.
Proof.
  intros w. revert pre. induction w as [|c w IH]; intros pre Ht Hm; simpl in *.
  - by rewrite Nat.add_0_r in Hm.
  - eapply (matches_one _ _ _ _ (S (length pre))).
    + simpl. subst t. rewrite (list_lookup_middle pre (w ++ post) c) by done. by rewrite N.eqb_refl.
    + replace (S (length pre)) with (length (pre ++ [c])) by (rewrite length_app; simpl; lia).
      apply IH.
      * by rewrite <-app_assoc.
      * rewrite length_app. simpl. by replace (length pre + 1 + length w)%nat
          with (length pre + S (length w))%nat by lia.
Qed.

Lemma matches_skip_all t b i j opts :
  Forall (λ it, ∃ a, it = Opt a) opts → matches t b i j → matches t (opts ++ b) i j.
Proof.
  induction 1 as [|it opts [a ->] _ IH]; intros Hm; simpl; [done|].
  apply matches_skip. by apply IH.
Qed.

Lemma standalone_start t pre w post c :
  t = pre ++ w ++ post → head w = Some c → is_word c = true →
  from_option is_word false (last pre) = false →
  at_boundary t (length pre) = true.
Proof.
  intros -> Hh Hc Hp. destruct w as [|c' w]; [done|]. injection Hh as ->.
  unfold at_boundary.
  rewrite (word_at_lookup _ _ c) by (by apply list_lookup_middle).
  rewrite Hc. destruct pre as [|x pre _] using rev_ind; [done|].
  rewrite last_snoc in Hp. simpl in Hp.
  rewrite length_app. simpl. rewrite Nat.add_1_r.
  rewrite (word_at_lookup _ _ x); [by rewrite Hp|].
  rewrite <-app_assoc. by apply list_lookup_middle.
Qed.

Lemma standalone_end t pre w post c :
  t = pre ++ w ++ post → last w = Some c → is_word c = true →
  from_option is_word false (head post) = false →
  at_boundary t (length pre + length w) = true.
Proof.
  intros -> Hl Hc Hp. destruct w as [|x w _] using rev_ind; [done|].
  rewrite last_snoc in Hl. injection Hl as ->.
  rewrite length_app. simpl.
  replace (length pre + (length w + 1))%nat with (S (length pre + length w)) by lia.
  unfold at_boundary.
  rewrite (word_at_lookup _ (length pre + length w) c).
  2:{ rewrite lookup_app_r by lia. rewrite <-app_assoc.
      replace (length pre + length w - length pre)%nat with (length w) by lia.
      by apply list_lookup_middle. }
  rewrite Hc. unfold word_at.
  rewrite lookup_app_r by lia. rewrite lookup_app_r by (rewrite length_app; simpl; lia).
  rewrite length_app. simpl.
  replace (S (length pre + length w) - length pre - (length w + 1))%nat with O by lia.
  rewrite <-head_lookup. by rewrite Hp.
Qed.

(** The branch [\bw\b], possibly with optional atoms in front of the
    closing [\b], matches a [w] that stands alone. *)
Lemma standalone_matches w t opts c d :
  standalone w t →
  head w = Some c → is_word c = true →
  last w = Some d → is_word d = true →
  Forall (λ it, ∃ a, it = Opt a) opts →
  ∃ i j, (i ≤ length t)%nat ∧
    matches t (One Boundary :: ((λ c, One (Chr c)) <$> w) ++ opts ++ [One Boundary]) i j.
Proof.
  intros (pre & post & Ht & Hpre & Hpost) Hh Hc Hl Hd Hopts.
  exists (length pre), (length pre + length w)%nat. split.
  { subst t. rewrite length_app. lia. }
  eapply matches_one.
  - simpl. by rewrite (standalone_start t pre w post c).
  - apply (matches_chars t pre post); [done|].
    apply matches_skip_all; [done|].
    eapply matches_one; [|constructor].
    simpl. by rewrite (standalone_end t pre w post d).
Qed.

End facts.
End ReFacts.

(** ** Sorting *)

Section sorting_facts.
Context {A : Type} (le : A → A → bool).

Lemma insort_perm x l : insort le x l ≡ₚ x :: l.
Proof.
  induction l as [|y l IH]; simpl; [done|].
  destruct (le x y); [done|]. rewrite IH. apply Permutation_swap.
Qed.

Lemma sorted_perm l : sorted le l ≡ₚ l.
Proof.
  induction l as [|x l IH]; simpl; [done|].
  unfold sorted in *. by rewrite insort_perm, IH.
Qed.

Lemma elem_of_sorted x l : x ∈ sorted le l ↔ x ∈ l.
Proof. by rewrite sorted_perm. Qed.

Hypothesis le_total : ∀ x y, le x y = false → le y x = true.
Hypothesis le_trans : ∀ x y z, le x y = true → le y z = true → le x z = true.

Lemma insort_sorted x l :
  StronglySorted (λ a b, le a b = true) l →
  StronglySorted (λ a b, le a b = true) (insort le x l).
Proof.
  induction 1 as [|y l Hl IH Hy]; simpl.
  - repeat constructor.
  - destruct (le x y) eqn:E.
    + constructor; [by constructor|].
      constructor; [done|]. eapply Forall_impl; [done|]. simpl. eauto.
    + constructor; [done|].
      rewrite insort_perm. constructor; auto.
Qed.

Lemma sorted_sorted l : StronglySorted (λ a b, le a b = true) (sorted le l).
Proof.
  induction l as [|x l IH]; simpl; [constructor|]. by apply insort_sorted.
Qed.

End sorting_facts.

Lemma str_le_total a : ∀ b, str_le a b = false → str_le b a = true.
Proof.
  induction a as [|x a IH]; intros [|y b]; simpl; try done.
  destruct (N.ltb_spec x y), (N.eqb_spec x y), (N.ltb_spec y x), (N.eqb_spec y x);
    try done; try lia. apply IH.
Qed.

Lemma str_le_trans a : ∀ b c, str_le a b = true → str_le b c = true → str_le a c = true.
Proof.
  induction a as [|x a IH]; intros [|y b] [|z c]; simpl; try done.
  destruct (N.ltb_spec x y), (N.eqb_spec x y), (N.ltb_spec y z), (N.eqb_spec y z),
    (N.ltb_spec x z), (N.eqb_spec x z); try done; try lia. apply IH.
Qed.

Lemma component_le_spec x y : component_le x y = true ↔ layer_then_name x y.
Proof.
  unfold component_le, key_le, layer_then_name, sort_key. simpl.
  rewrite orb_true_iff, andb_true_iff, Z.ltb_lt, Z.eqb_eq. done.
Qed.

Lemma component_le_total x y : component_le x y = false → component_le y x = true.
Proof.
  unfold component_le, key_le, sort_key. simpl.
  destruct (Z.ltb_spec (layer x) (layer y)), (Z.eqb_spec (layer x) (layer y)),
    (Z.ltb_spec (layer y) (layer x)), (Z.eqb_spec (layer y) (layer x));
    simpl; try done; try lia.
  apply str_le_total.
Qed.

Lemma component_le_trans x y z :
  component_le x y = true → component_le y z = true → component_le x z = true.
Proof.
  unfold component_le, key_le, sort_key. simpl.
  destruct (Z.ltb_spec (layer x) (layer y)), (Z.eqb_spec (layer x) (layer y)),
    (Z.ltb_spec (layer y) (layer z)), (Z.eqb_spec (layer y) (layer z)),
    (Z.ltb_spec (layer x) (layer z)), (Z.eqb_spec (layer x) (layer z));
    simpl; try done; try lia.
  apply str_le_trans.
Qed.

Lemma sorted_components l : StronglySorted layer_then_name (sorted component_le l).
Proof.
  pose proof (sorted_sorted component_le component_le_total component_le_trans l) as H.
  induction H as [|x l' _ IH Hx]; constructor; [done|].
  eapply Forall_impl; [done|]. intros y. apply component_le_spec.
Qed.

(** ** Extraction *)

Section extraction_facts.
Context `{U : UnicodeData}.

Lemma detect_total self t items : ∀ added acc,
  patterns_compile items → ∃ comps, detect self t items added acc = inr comps.
Proof.
  induction items as [|[c e] items IH]; intros added acc Hc; simpl; [eauto|].
  apply Forall_cons in Hc as [[r Hr] Hc]. simpl in Hr.
  unfold Re.search. rewrite Hr.
  destruct (Re.scan _ _ _); [|by apply IH].
  destruct (bool_decide _); by apply IH.
Qed.

Lemma detect_detected self t items : ∀ added acc,
  patterns_compile items → NoDup items.*1 → (∀ c, c ∈ items.*1 → c ∉ added) →
  detect self t items added acc = inr (acc ++ detected self t items).
Proof.
  unfold detected.
  induction items as [|[c e] items IH]; intros added acc Hc Hnd Hadd.
  { simpl. by rewrite app_nil_r. }
  apply Forall_cons in Hc as [[r Hr] Hc]. simpl in Hr.
  rewrite fmap_cons in Hnd. apply NoDup_cons in Hnd as [Hc' Hnd].
  assert (Re.search (Entry.pattern e) t = inr (Re.scan t r (seq 0 (S (length t))))) as Hs.
  { unfold Re.search. by rewrite Hr. }
  rewrite filter_cons. cbn [detect].
  destruct (decide (hits t (c, e) = true)) as [Hh|Hh];
    unfold hits in Hh; cbn [snd] in Hh; rewrite Hs in Hh |- *;
    destruct (Re.scan _ _ _) as [span|]; try done.
  - rewrite bool_decide_true by (apply Hadd; rewrite fmap_cons; left).
    rewrite fmap_cons. cbn [fst snd].
    rewrite IH; [by rewrite <-app_assoc|done|done|].
    intros c' Hin [->%elem_of_singleton|Hin']%elem_of_union; [done|].
    eapply Hadd; [|done]. rewrite fmap_cons. by right.
  - apply IH; [done|done|]. intros c' Hin. apply Hadd. rewrite fmap_cons. by right.
Qed.

Lemma detected_concepts self t items :
  concept <$> detected self t items = (filter (λ kv, hits t kv = true) items).*1.
Proof. unfold detected. rewrite <-list_fmap_compose. done. Qed.

Lemma elem_of_detected self t items d :
  d ∈ detected self t items ↔
  ∃ c e, (c, e) ∈ items ∧ hits t (c, e) = true ∧ d = make_component self c e.
Proof.
  unfold detected. rewrite list_elem_of_fmap. split.
  - intros ([c e] & -> & [? ?]%list_elem_of_filter). by exists c, e.
  - intros (c & e & ? & ? & ->). exists (c, e). split; [done|].
    by apply list_elem_of_filter.
Qed.

Lemma select_patterns_spec self platform :
  select_patterns self platform =
    match platform_services self !! lower platform with
    | Some (e :: es) => ret (e :: es)
    | _ =>
      if warning_prints platform
      then ([unknown_platform_warning platform], inr generic_patterns)
      else raise UnicodeEncodeError
    end.
Proof.
  unfold select_patterns, print, warning_prints.
  destruct (platform_services self !! lower platform) as [[|]|]; try done;
    by destruct (forallb _ _).
Qed.

Lemma select_patterns_outcome self platform :
  outcome (select_patterns self platform)
  = if resolves self platform then inr (selected self platform) else inl UnicodeEncodeError.
Proof.
  rewrite select_patterns_spec. unfold resolves, selected.
  destruct (platform_services self !! lower platform) as [[|]|]; try done;
    by destruct (warning_prints platform).
Qed.

Lemma generic_patterns_compile : patterns_compile generic_patterns.
Proof.
  unfold patterns_compile, generic_patterns.
  repeat (apply Forall_cons; split; [eexists; vm_compute; reflexivity|]). constructor.
Qed.

Lemma selected_compile self platform :
  well_formed self → patterns_compile (selected self platform).
Proof.
  intros Hwf. unfold selected.
  destruct (platform_services self !! lower platform) as [[|e es]|] eqn:E;
    try apply generic_patterns_compile.
  by apply (Hwf _ _ E).
Qed.

Lemma parse_components_total self plan platform :
  well_formed self → resolves self platform = true →
  ∃ comps, outcome (parse_components self plan platform) = inr comps.
Proof.
  intros Hwf Hres. unfold parse_components.
  pose proof (select_patterns_outcome self platform) as Hs. rewrite Hres in Hs.
  destruct (select_patterns self platform) as [out [e|tbl]]; [done|].
  injection Hs as ->. simpl.
  destruct (detect_total self (lower plan) (selected self platform) ∅ [])
    as [comps ->]; [by apply selected_compile|].
  simpl. eauto.
Qed.

Lemma parse_components_raises self plan platform :
  resolves self platform = false →
  parse_components self plan platform = raise UnicodeEncodeError.
Proof.
  intros Hres. unfold parse_components. rewrite select_patterns_spec.
  unfold resolves in Hres.
  destruct (platform_services self !! lower platform) as [[|]|]; try done;
    by rewrite Hres.
Qed.

Lemma parse_components_detected self plan platform :
  well_formed self → NoDup (selected self platform).*1 →
  outcome (parse_components self plan platform)
  = if resolves self platform
    then inr (sorted component_le (detected self (lower plan) (selected self platform)))
    else inl UnicodeEncodeError.
Proof.
  intros Hwf Hnd. unfold parse_components.
  pose proof (select_patterns_outcome self platform) as Hs.
  destruct (resolves self platform);
    destruct (select_patterns self platform) as [out [e|tbl]]; try done.
  - injection Hs as ->. simpl.
    rewrite detect_detected; [done|by apply selected_compile|done|set_solver].
  - by injection Hs as ->.
Qed.

Lemma make_component_concept self c e : concept (make_component self c e) = c.
Proof. reflexivity. Qed.

Lemma hits_search t kv :
  hits t kv = true ↔ ∃ span, Re.search (Entry.pattern kv.2) t = inr (Some span).
Proof.
  unfold hits. destruct (Re.search _ _) as [e|[span|]]; split; try done; eauto.
  - by intros [? ?].
  - by intros [? ?].
Qed.

(** Adding text behind a blank keeps every hit. *)
Lemma hits_app t u kv :
  from_option is_word false (head u) = false →
  hits t kv = true → hits (t ++ u) kv = true.
Proof.
  intros Hu [span Hs]%hits_search. apply hits_search.
  by eapply ReFacts.search_app.
Qed.

Lemma hits_standalone t kv w opts c d r :
  standalone w t →
  head w = Some c → is_word c = true →
  last w = Some d → is_word d = true →
  Forall (λ it, ∃ a, it = Re.Opt a) opts →
  Re.compile (Entry.pattern kv.2) = Some r →
  (Re.One Re.Boundary :: ((λ c, Re.One (Re.Chr c)) <$> w) ++ opts ++ [Re.One Re.Boundary]) ∈ r →
  hits t kv = true.
Proof.
  intros Hw Hh Hc Hl Hd Hopts Hr Hb. apply hits_search, ReFacts.search_is_Some.
  destruct (ReFacts.standalone_matches w t opts c d) as (i & j & Hi & Hm); try done.
  by eexists r, _, i, j.
Qed.

Lemma filter_ext_in {A} (P Q : A → Prop) `{∀ x, Decision (P x)} `{∀ x, Decision (Q x)}
    (l : list A) :
  (∀ x, x ∈ l → P x ↔ Q x) → filter P l = filter Q l.
Proof.
  induction l as [|x l IH]; intros HPQ; [done|].
  rewrite !filter_cons.
  rewrite IH by (intros y Hy; apply HPQ; by right).
  destruct (decide (P x)) as [HP|HP], (decide (Q x)) as [HQ|HQ]; try done;
    exfalso; apply (HPQ x) in HP || apply (HPQ x) in HQ; try done; by left.
Qed.

Lemma table_entry_unique (tbl : table) c e1 e2 :
  NoDup tbl.*1 → (c, e1) ∈ tbl → (c, e2) ∈ tbl → e1 = e2.
Proof.
  induction tbl as [|[c' e'] tbl IH]; [by intros _ ?%elem_of_nil|].
  rewrite fmap_cons. intros [Hc Hnd]%NoDup_cons H1 H2. simpl in Hc.
  apply elem_of_cons in H1 as [H1|H1]; apply elem_of_cons in H2 as [H2|H2].
  - congruence.
  - injection H1 as <- <-. exfalso. apply Hc. apply list_elem_of_fmap. by exists (c, e2).
  - injection H2 as <- <-. exfalso. apply Hc. apply list_elem_of_fmap. by exists (c, e1).
  - by apply IH.
Qed.

End extraction_facts.

(** ** The tables built by [__init__] *)

Section init_facts.
Context `{U : UnicodeData}.

Ltac compile_all :=
  unfold patterns_compile;
  repeat (apply Forall_cons; split; [eexists; vm_compute; reflexivity|]);
  constructor.

Lemma aws_services_compile : patterns_compile aws_services.
Proof. unfold aws_services. compile_all. Qed.

Lemma gcp_services_compile : patterns_compile gcp_services.
Proof. unfold gcp_services. compile_all. Qed.

Lemma azure_services_compile : patterns_compile azure_services.
Proof. unfold azure_services. compile_all. Qed.

Ltac anchored_all :=
  repeat (apply Forall_cons; split; [vm_compute; reflexivity|]); constructor.

Lemma aws_services_anchored :
  Forall (λ kv, Re.anchored_pattern (Entry.pattern kv.2) = true) aws_services.
Proof. unfold aws_services. anchored_all. Qed.

Lemma gcp_services_anchored :
  Forall (λ kv, Re.anchored_pattern (Entry.pattern kv.2) = true) gcp_services.
Proof. unfold gcp_services. anchored_all. Qed.

Lemma azure_services_anchored :
  Forall (λ kv, Re.anchored_pattern (Entry.pattern kv.2) = true) azure_services.
Proof. unfold azure_services. anchored_all. Qed.

Lemma init_well_formed : well_formed __init__.
Proof.
  unfold well_formed, __init__. cbn [platform_services].
  apply map_Forall_insert_2; [apply aws_services_compile|].
  apply map_Forall_insert_2; [apply gcp_services_compile|].
  apply map_Forall_insert_2; [apply azure_services_compile|].
  apply map_Forall_empty.
Qed.

Lemma init_platform_services key :
  platform_services __init__ !! key =
    if decide (key = lit "aws") then Some aws_services
    else if decide (key = lit "gcp") then Some gcp_services
    else if decide (key = lit "azure") then Some azure_services
    else None.
Proof.
  unfold __init__. cbn [platform_services].
  rewrite !lookup_insert, lookup_empty.
  repeat destruct (decide _) as [?|?]; subst; try done; exfalso;
    match goal with H : _ ≠ _ |- _ => by apply H end.
Qed.

Lemma selected_init platform :
  selected __init__ platform =
    if decide (lower platform = lit "aws") then aws_services
    else if decide (lower platform = lit "gcp") then gcp_services
    else if decide (lower platform = lit "azure") then azure_services
    else generic_patterns.
Proof.
  unfold selected. rewrite init_platform_services.
  by repeat destruct (decide _).
Qed.

Lemma selected_init_NoDup platform : NoDup (selected __init__ platform).*1.
Proof.
  rewrite selected_init.
  repeat destruct (decide _); apply (bool_decide_unpack _); by vm_compute.
Qed.

Lemma resolves_init platform :
  resolves __init__ platform
  = if decide (lower platform ∈ known_platforms) then true else warning_prints platform.
Proof.
  unfold resolves, known_platforms. rewrite init_platform_services.
  destruct (decide (lower platform = lit "aws")) as [E|N1].
  { rewrite decide_True; [done|]. rewrite E. left. }
  destruct (decide (lower platform = lit "gcp")) as [E|N2].
  { rewrite decide_True; [done|]. rewrite E. right. left. }
  destruct (decide (lower platform = lit "azure")) as [E|N3].
  { rewrite decide_True; [done|]. rewrite E. right. right. left. }
  rewrite decide_False; [done|]. rewrite !elem_of_cons, elem_of_nil. tauto.
Qed.

Lemma warning_prints_token platform : warning_prints platform = forallb can_encode platform.
Proof.
  unfold warning_prints, unknown_platform_warning. rewrite !forallb_app.
  assert (forallb can_encode (lit "Warning: Unknown platform '") = true) as -> by reflexivity.
  assert (forallb can_encode (lit "'. Using generic parsing.") = true) as -> by reflexivity.
  by rewrite andb_true_r.
Qed.

Lemma parse_components_init plan platform :
  outcome (parse_components __init__ plan platform)
  = if resolves __init__ platform
    then inr (sorted component_le (detected __init__ (lower plan) (selected __init__ platform)))
    else inl UnicodeEncodeError.
Proof.
  apply parse_components_detected; [apply init_well_formed|apply selected_init_NoDup].
Qed.

(** A list that [parse_components] returns is the sorted list of the
    detected components. *)
Lemma parse_components_inv plan platform components :
  outcome (parse_components __init__ plan platform) = inr components →
  resolves __init__ platform = true ∧
  components
  = sorted component_le (detected __init__ (lower plan) (selected __init__ platform)).
Proof.
  rewrite parse_components_init. destruct (resolves __init__ platform); [|done].
  by intros [= <-].
Qed.

Lemma lower_known canonical : canonical ∈ known_platforms → lower canonical = canonical.
Proof.
  unfold known_platforms.
  rewrite !elem_of_cons, elem_of_nil. intros [->|[->|[->|[]]]]; by vm_compute.
Qed.

Lemma lower_app a b : lower (a ++ b) = lower a ++ lower b.
Proof. unfold lower. apply bind_app. Qed.

Lemma same_letter_lower x y : same_letter x y → lower_char x = lower_char y.
Proof.
  unfold same_letter, lower_char, is_ascii, between.
  intros [->|[[H ->]|[H ->]]]; [done| |];
    apply andb_true_iff in H as [H1%N.leb_le H2%N.leb_le].
  - destruct (N.ltb_spec x 128), (N.ltb_spec (x + 32) 128); try lia.
    destruct (N.leb_spec 65 x), (N.leb_spec x 90),
      (N.leb_spec 65 (x + 32)), (N.leb_spec (x + 32) 90); simpl; try lia. done.
  - destruct (N.ltb_spec y 128), (N.ltb_spec (y + 32) 128); try lia.
    destruct (N.leb_spec 65 y), (N.leb_spec y 90),
      (N.leb_spec 65 (y + 32)), (N.leb_spec (y + 32) 90); simpl; try lia. done.
Qed.

(** Tokens that differ letter by letter in case only are case variants. *)
Lemma same_letters_case_variant a b : Forall2 same_letter a b → case_variant a b.
Proof.
  unfold case_variant, lower.
  induction 1 as [|x y a b Hxy _ IH]; [done|].
  cbn [mbind list_bind]. by rewrite (same_letter_lower x y), IH.
Qed.

Lemma same_letter_can_encode x y : same_letter x y → can_encode x = can_encode y.
Proof.
  unfold same_letter, can_encode, is_ascii, between.
  intros [->|[[H ->]|[H ->]]]; [done| |];
    apply andb_true_iff in H as [H1%N.leb_le H2%N.leb_le].
  - by destruct (N.ltb_spec x 128), (N.ltb_spec (x + 32) 128); try lia.
  - by destruct (N.ltb_spec y 128), (N.ltb_spec (y + 32) 128); try lia.
Qed.

(** Such tokens are printed, or refused, alike. *)
Lemma same_letters_warning_prints a b :
  Forall2 same_letter a b → warning_prints a = warning_prints b.
Proof.
  rewrite !warning_prints_token.
  induction 1 as [|x y a b Hxy _ IH]; [done|].
  cbn [forallb]. by rewrite (same_letter_can_encode x y), IH.
Qed.

(** No pattern of the generic table has a branch that begins with [\b]. *)
Lemma generic_patterns_unanchored c e r b :
  (c, e) ∈ generic_patterns → Re.compile (Entry.pattern e) = Some r → b ∈ r →
  head b ≠ Some (Re.One Re.Boundary).
Proof.
  unfold generic_patterns. rewrite !elem_of_cons, elem_of_nil.
  intros [E|[E|[E|[E|[E|[]]]]]] Hr Hb; injection E as -> ->;
    vm_compute in Hr; injection Hr as <-;
    rewrite !elem_of_cons, elem_of_nil in Hb;
    repeat (destruct Hb as [->|Hb]; [done|]); done.
Qed.

End init_facts.

(** ** Layout *)

Section layout_facts.

Lemma layers_get_is_Some layers k : k ∈ layers.*1 → is_Some (layers_get layers k).
Proof.
  induction layers as [|[k' v] layers IH]; simpl; [by intros ?%elem_of_nil|].
  intros [->|Hin]%elem_of_cons.
  - rewrite Z.eqb_refl. eauto.
  - destruct (k' =? k); eauto.
Qed.

Lemma layer_rows_total self layers bw todo : ∀ i n,
  (∀ k, k ∈ todo → k ∈ layers.*1) →
  ∃ rows, layer_rows self layers bw todo i n = inr rows.
Proof.
  induction todo as [|k todo IH]; intros i n Hin; simpl; [eauto|].
  destruct (layers_get_is_Some layers k) as [v ->]; [apply Hin; left|].
  destruct (IH (i + 1) n) as [rows ->]; [intros; apply Hin; by right|].
  eauto.
Qed.

Lemma diagram_lines_total self components title :
  ∃ lines, diagram_lines self components title = inr lines.
Proof.
  unfold diagram_lines.
  edestruct layer_rows_total as [rows ->]; [|eauto].
  intros k. by rewrite elem_of_sorted.
Qed.

(** *** Grouping by layer *)

Lemma layers_get_append layers l c k :
  layers_get (layers_append layers l c) k =
    if k =? l then Some (default [] (layers_get layers l) ++ [c]) else layers_get layers k.
Proof.
  induction layers as [|[k' v] layers IH]; simpl.
  - rewrite (Z.eqb_sym l k). by destruct (k =? l).
  - destruct (Z.eqb_spec k' l) as [->|Hne]; simpl.
    + rewrite (Z.eqb_sym l k). by destruct (k =? l).
    + rewrite IH. destruct (Z.eqb_spec k' k) as [->|?]; [|done].
      destruct (Z.eqb_spec k l); [lia|done].
Qed.

Lemma layers_append_keys layers l c k :
  k ∈ (layers_append layers l c).*1 ↔ k = l ∨ k ∈ layers.*1.
Proof.
  induction layers as [|[k' v] layers IH]; simpl.
  - rewrite elem_of_cons, elem_of_nil. tauto.
  - destruct (Z.eqb_spec k' l) as [->|Hne]; rewrite !fmap_cons, !elem_of_cons; simpl.
    + tauto.
    + rewrite IH. tauto.
Qed.

Lemma layers_append_NoDup layers l c :
  NoDup layers.*1 → NoDup (layers_append layers l c).*1.
Proof.
  induction layers as [|[k' v] layers IH]; cbn [layers_append].
  - intros _. apply NoDup_singleton.
  - rewrite fmap_cons. intros [Hk Hnd]%NoDup_cons. cbn [fst] in Hk.
    destruct (Z.eqb_spec k' l) as [->|Hne]; rewrite fmap_cons; apply NoDup_cons; cbn [fst].
    + done.
    + split; [|by apply IH]. rewrite layers_append_keys. intros [?|?]; done.
Qed.

Lemma layers_get_elem layers k v : layers_get layers k = Some v → (k, v) ∈ layers.
Proof.
  induction layers as [|[k' v'] layers IH]; simpl; [done|].
  destruct (Z.eqb_spec k' k) as [->|?].
  - intros [= ->]. left.
  - intros ?. right. by apply IH.
Qed.

Lemma layers_elem_get layers k v :
  NoDup layers.*1 → (k, v) ∈ layers → layers_get layers k = Some v.
Proof.
  induction layers as [|[k' v'] layers IH]; [by intros _ ?%elem_of_nil|].
  rewrite fmap_cons. intros [Hk Hnd]%NoDup_cons [Heq|Hin]%elem_of_cons; simpl in *.
  - injection Heq as <- <-. by rewrite Z.eqb_refl.
  - destruct (Z.eqb_spec k' k) as [->|?]; [|by apply IH].
    exfalso. apply Hk. apply list_elem_of_fmap. by exists (k, v).
Qed.

Lemma groups_step layers cs c :
  groups layers cs → groups (layer_step layers c) (cs ++ [c]).
Proof.
  intros [Hnd Hget]. split; [by apply layers_append_NoDup|].
  intros k. unfold layer_step. rewrite layers_get_append, filter_app, filter_cons, filter_nil.
  destruct (Z.eqb_spec k (layer c)) as [->|Hne].
  - rewrite decide_True by done. rewrite Hget.
    by destruct (filter (λ c0, layer c0 = layer c) cs).
  - rewrite decide_False by done. by rewrite app_nil_r, Hget.
Qed.

Lemma groups_foldl cs : ∀ layers pre,
  groups layers pre → groups (foldl layer_step layers cs) (pre ++ cs).
Proof.
  induction cs as [|c cs IH]; intros layers pre H; simpl.
  - by rewrite app_nil_r.
  - rewrite (cons_middle c pre cs), app_assoc. apply IH. by apply groups_step.
Qed.

Lemma group_layers_groups cs : groups (group_layers cs) cs.
Proof. apply (groups_foldl cs [] []). split; [constructor|done]. Qed.

(** *** The widest layer *)

Lemma max_of_nonneg l : 0 ≤ max_of l.
Proof. induction l; simpl; lia. Qed.

Lemma max_of_elem l x : x ∈ l → x ≤ max_of l.
Proof.
  induction l as [|y l IH]; [by intros ?%elem_of_nil|].
  intros [->|Hin]%elem_of_cons; simpl; [lia|]. specialize (IH Hin). lia.
Qed.

Lemma max_of_le l1 l2 :
  (∀ x, x ∈ l1 → ∃ y, y ∈ l2 ∧ x ≤ y) → max_of l1 ≤ max_of l2.
Proof.
  induction l1 as [|x l1 IH]; intros H; simpl; [apply max_of_nonneg|].
  destruct (H x) as (y & Hy & Hxy); [left|].
  apply max_of_elem in Hy.
  assert (max_of l1 ≤ max_of l2) by (apply IH; intros; apply H; by right).
  lia.
Qed.

Lemma max_label_width_max_of layers :
  max_label_width layers = max_of (layer_width <$> layers.*2).
Proof.
  unfold max_label_width.
  assert (∀ a, 0 ≤ a →
    foldl (λ m kv, Z.max m (layer_width kv.2)) a layers
    = Z.max a (max_of (layer_width <$> layers.*2))) as H.
  { unfold max_of. induction layers as [|[k v] layers IH]; intros a Ha; [simpl; lia|].
    rewrite !fmap_cons. cbn [foldl foldr snd]. rewrite IH by lia. lia. }
  rewrite H by lia. pose proof (max_of_nonneg (layer_width <$> layers.*2)). lia.
Qed.

Lemma max_label_width_layer_total cs :
  max_label_width (group_layers cs) = max_of ((λ c, layer_total cs (layer c)) <$> cs).
Proof.
  rewrite max_label_width_max_of.
  destruct (group_layers_groups cs) as [Hnd Hget].
  apply Z.le_antisymm; apply max_of_le; intros x Hx.
  - apply list_elem_of_fmap in Hx as (v & -> & Hv).
    apply list_elem_of_fmap in Hv as ([k v'] & -> & Hin). simpl.
    apply layers_elem_get in Hin; [|done]. rewrite Hget in Hin.
    destruct (filter (λ c, layer c = k) cs) as [|c f] eqn:E; [done|].
    injection Hin as <-.
    assert (c ∈ filter (λ c, layer c = k) cs) as [Hc Hin]%list_elem_of_filter
      by (rewrite E; left).
    exists (layer_total cs (layer c)). split.
    + apply list_elem_of_fmap. by exists c.
    + unfold layer_total. rewrite Hc, E. lia.
  - apply list_elem_of_fmap in Hx as (c & -> & Hc).
    exists (layer_total cs (layer c)). split; [|lia].
    apply list_elem_of_fmap. exists (filter (λ c0, layer c0 = layer c) cs). split; [done|].
    apply list_elem_of_fmap. exists (layer c, filter (λ c0, layer c0 = layer c) cs).
    split; [done|]. apply layers_get_elem. rewrite Hget.
    destruct (filter _ cs) eqn:E; [|done].
    assert (c ∈ filter (λ c0, layer c0 = layer c) cs) as Hin
      by (by apply list_elem_of_filter).
    rewrite E in Hin. by apply elem_of_nil in Hin.
Qed.

Lemma filter_none {A} (P : A → Prop) `{∀ x, Decision (P x)} (l : list A) :
  (∀ x, x ∈ l → ¬ P x) → filter P l = [].
Proof.
  induction l as [|x l IH]; intros H'; [done|].
  rewrite filter_cons, decide_False by (apply H'; left).
  apply IH. intros y Hy. apply H'. by right.
Qed.

Lemma filter_own_layer cs c :
  NoDup (layer <$> cs) → c ∈ cs → filter (λ c0, layer c0 = layer c) cs = [c].
Proof.
  induction cs as [|c' cs IH]; [by intros _ ?%elem_of_nil|].
  rewrite fmap_cons. intros [Hc Hnd]%NoDup_cons [->|Hin]%elem_of_cons.
  - rewrite filter_cons, decide_True by done. f_equal.
    apply filter_none. intros x Hx Heq. apply Hc. rewrite <-Heq.
    by apply list_elem_of_fmap_2.
  - rewrite filter_cons, decide_False; [by apply IH|].
    intros Heq. apply Hc. rewrite Heq. by apply list_elem_of_fmap_2.
Qed.

(** *** Widths of the rows *)

Lemma len_app {A} (a b : list A) : len (a ++ b) = len a + len b.
Proof. unfold len. rewrite length_app. lia. Qed.

Lemma len_spaces n : 0 ≤ n → len (spaces n) = n.
Proof. intros. unfold len, spaces. rewrite length_replicate. lia. Qed.

Lemma len_repeat_str s n : 0 ≤ n → len (repeat_str s n) = n * len s.
Proof.
  intros Hn. unfold repeat_str, len.
  assert (∀ k, length (mjoin (replicate k s)) = (k * length s)%nat) as H.
  { induction k as [|k IH]; simpl; [done|]. rewrite length_app, IH. lia. }
  rewrite H. lia.
Qed.

Lemma len_ljust s width : len s ≤ width → len (ljust s width) = width.
Proof.
  intros H. unfold ljust. destruct (Z.geb_spec (len s) width) as [?|?]; [lia|].
  rewrite len_app, len_spaces; lia.
Qed.

Lemma len_center s width : len s ≤ width → len (center s width) = width.
Proof.
  intros H. unfold center. destruct (Z.geb_spec (len s) width) as [?|?]; [lia|].
  set (marg := width - len s).
  assert (0 ≤ Z.land (Z.land marg width) 1 ≤ 1) as Hl.
  { assert (Z.land (Z.land marg width) 1 = Z.land marg width mod 2) as ->.
    { change 1 with (Z.ones 1). apply Z.land_ones. lia. }
    pose proof (Z.mod_pos_bound (Z.land marg width) 2 ltac:(lia)). lia. }
  assert (0 < marg) as Hm by (unfold marg; lia).
  pose proof (Z.div_mod marg 2 ltac:(lia)) as Hd.
  pose proof (Z.mod_pos_bound marg 2 ltac:(lia)) as Hr.
  generalize dependent (Z.land (Z.land marg width) 1). intros b Hb.
  generalize dependent (marg / 2). generalize dependent (marg mod 2).
  intros r Hr q Hd.
  rewrite !len_app, !len_spaces by lia. lia.
Qed.

Lemma len_slice_inner {A} (s : list A) : 2 ≤ len s → len (slice s 1 (-1)) = len s - 2.
Proof.
  intros H. unfold slice, clamp. simpl.
  destruct (Z.ltb_spec 1 0); [lia|].
  unfold len in *. rewrite length_take, length_drop. lia.
Qed.

Lemma border_len self l r bw :
  0 ≤ bw → len (border self l r bw) = len l + bw * len (horizontal (chars self)) + len r.
Proof. intros. unfold border. rewrite !len_app, len_repeat_str by done. lia. Qed.

Lemma title_row_len title bw :
  len title + 4 ≤ bw → len (title_row title bw) = bw + 2 * len bar.
Proof.
  intros. unfold title_row. rewrite !len_app, len_center by lia.
  change (len (lit " ")) with 1. lia.
Qed.

Lemma component_row_len comp bw :
  len (label comp) + 4 ≤ bw → len (component_row comp bw) = bw + 2 * len bar.
Proof.
  intros. unfold component_row. rewrite !len_app, len_ljust by lia.
  change (len (lit " ")) with 1. lia.
Qed.

(** The connector row is two code points narrower than the other rows. *)
Lemma connector_row_len self bw :
  2 ≤ bw → len (arrow_down (chars self)) ≤ bw →
  len (connector_row self bw) = bw - 2 + 2 * len bar.
Proof.
  intros. unfold connector_row. rewrite !len_app, len_slice_inner; rewrite len_center; lia.
Qed.

(** *** Every component has its row *)

Lemma layer_rows_elem self layers bw todo : ∀ i n rows k v c,
  layer_rows self layers bw todo i n = inr rows →
  k ∈ todo → layers_get layers k = Some v → c ∈ v →
  component_row c bw ∈ rows.
Proof.
  induction todo as [|k' todo IH]; intros i n rows k v c Hr Hk Hv Hc;
    [by apply elem_of_nil in Hk|].
  cbn [layer_rows] in Hr.
  destruct (layers_get layers k') as [v'|] eqn:Hv'; [|done].
  destruct (layer_rows self layers bw todo (i + 1) n) as [e|more] eqn:Hm; [done|].
  injection Hr as <-.
  apply elem_of_cons in Hk as [->|Hk].
  - rewrite Hv in Hv'. injection Hv' as <-.
    apply elem_of_app. left. apply list_elem_of_fmap. by exists c.
  - apply elem_of_app. right. apply elem_of_app. right. by eapply IH.
Qed.

Lemma diagram_lines_rows self components title lines c :
  diagram_lines self components title = inr lines → c ∈ components →
  component_row c (box_width components title) ∈ lines.
Proof.
  unfold diagram_lines. intros Hl Hc.
  destruct (layer_rows _ _ _ _ _ _) as [e|rows] eqn:Hr; [done|].
  injection Hl as <-.
  destruct (group_layers_groups components) as [_ Hget].
  do 3 (apply elem_of_cons; right). apply elem_of_app. left.
  apply (layer_rows_elem _ _ _ _ _ _ _ (layer c)
           (filter (λ c0, layer c0 = layer c) components) c Hr).
  - apply elem_of_sorted. apply list_elem_of_fmap.
    exists (layer c, filter (λ c0, layer c0 = layer c) components). split; [done|].
    apply layers_get_elem. rewrite Hget.
    destruct (filter _ components) eqn:E; [|done].
    assert (c ∈ filter (λ c0, layer c0 = layer c) components) as Hin
      by (by apply list_elem_of_filter).
    rewrite E in Hin. by apply elem_of_nil in Hin.
  - rewrite Hget. destruct (filter _ components) eqn:E; [|done].
    assert (c ∈ filter (λ c0, layer c0 = layer c) components) as Hin
      by (by apply list_elem_of_filter).
    rewrite E in Hin. by apply elem_of_nil in Hin.
  - by apply list_elem_of_filter.
Qed.

Lemma build_diagram_text_total self components title :
  ∃ text, build_diagram_text self components title = inr text.
Proof.
  unfold build_diagram_text. destruct components; [eauto|].
  edestruct diagram_lines_total as [lines ->]. eauto.
Qed.

End layout_facts.

Section entry_facts.
Context `{U : UnicodeData}.

Lemma create_architecture_diagram_total self plan platform prefix :
  well_formed self → platform = [] ∨ resolves self platform = true →
  ∃ text, outcome (create_architecture_diagram self plan platform prefix) = inr text.
Proof.
  intros Hwf Hres. unfold create_architecture_diagram.
  destruct platform as [|c platform]; [by eexists|].
  destruct Hres as [?|Hres]; [done|].
  destruct (parse_components_total self plan (c :: platform) Hwf Hres) as [comps Hc].
  destruct (parse_components _ _ _) as [out [e|comps']]; [done|].
  injection Hc as ->. simpl.
  edestruct build_diagram_text_total as [text ->]. eauto.
Qed.

Lemma create_architecture_diagram_raises self plan platform prefix :
  platform ≠ [] → resolves self platform = false →
  create_architecture_diagram self plan platform prefix = raise UnicodeEncodeError.
Proof.
  intros Hne Hres. unfold create_architecture_diagram.
  destruct platform as [|c platform]; [done|].
  by rewrite parse_components_raises.
Qed.

End entry_facts.

(** ** The properties of the specification *)

Section claims.
Context `{U : UnicodeData}.

(** C2. The entry point returns a text for every plan text and platform
    token but in one case: a plan is given, the platform token is not empty
    and, case-folded, none of [aws], [gcp] and [azure], and [sys.stdout]
    cannot encode the token.  There the warning of [parse_components] cannot
    be printed, and the [UnicodeEncodeError] of [print] ends the call before
    the generic table is reached.  In every other case a text is returned,
    also by a generator with any glyph and layer tables and any platform
    tables whose patterns compile; a concept without a glyph gets the
    placeholder glyph and a concept without a layer gets layer 99. *)
Theorem generate_ascii_diagram_outcomes :
  (∀ plan_text target_platform,
     plan_text ≠ [] → target_platform ≠ [] →
     lower target_platform ∉ known_platforms →
     warning_prints target_platform = false →
     generate_ascii_diagram plan_text target_platform = raise UnicodeEncodeError) ∧
  (∀ plan_text target_platform,
     plan_text = [] ∨ target_platform = [] ∨
     lower target_platform ∈ known_platforms ∨ warning_prints target_platform = true →
     ∃ text, outcome (generate_ascii_diagram plan_text target_platform) = inr text) ∧
  (∀ self plan_text platform title_prefix,
     well_formed self → platform = [] ∨ resolves self platform = true →
     ∃ text, outcome (create_architecture_diagram self plan_text platform title_prefix)
             = inr text) ∧
  (∀ self concept details,
     (service_icons self !! concept = None →
      icon (make_component self concept details) = unknown_icon) ∧
     (layer_priority self !! concept = None →
      layer (make_component self concept details) = 99)).
Proof.
  split; [|split; [|split]].
  - intros plan platform Hp Ht Hk Hw. unfold generate_ascii_diagram.
    destruct plan as [|c plan]; [done|].
    destruct platform as [|d platform]; [done|].
    apply create_architecture_diagram_raises; [done|].
    rewrite resolves_init. by rewrite decide_False.
  - intros plan platform H. unfold generate_ascii_diagram.
    destruct plan as [|c plan]; [by eexists|].
    destruct platform as [|d platform]; [by eexists|].
    apply create_architecture_diagram_total; [apply init_well_formed|].
    right. rewrite resolves_init. destruct (decide _); [done|].
    by destruct H as [?|[?|[?|?]]].
  - intros self plan platform prefix. apply create_architecture_diagram_total.
  - intros self c e. unfold make_component. simpl. by split; intros ->.
Qed.

(** C3. With an empty plan text the entry point returns the "no plan
    provided" block, whatever the platform; with a non-empty plan text and an
    empty platform it returns the "platform must be specified" block.  Both
    are ordinary results between the block markers, nothing is printed and
    nothing is raised.  The method behind the entry point has a guard of its
    own for an empty platform. *)
Theorem missing_input_placeholders :
  (∀ target_platform,
     generate_ascii_diagram [] target_platform
     = ret (fence_open ++ lit "No architecture plan provided to generate diagram."
            ++ fence_close)) ∧
  (∀ c plan_text,
     generate_ascii_diagram (c :: plan_text) []
     = ret (fence_open ++ lit "Target platform (aws, gcp, azure) must be specified."
            ++ fence_close)) ∧
  (∀ self plan_text title_prefix,
     create_architecture_diagram self plan_text [] title_prefix
     = ret (fence_open ++ lit "Error: Target platform not specified." ++ fence_close)).
Proof. by repeat split. Qed.

(** C4. Every component list that extraction returns, for any plan text
    and platform, is sorted by layer and, within a layer, by display name, and
    names each concept at most once. *)
Theorem components_sorted_unique plan_text platform components :
  outcome (parse_components __init__ plan_text platform) = inr components →
  StronglySorted layer_then_name components ∧
  NoDup (concept <$> components).
Proof.
  intros [_ ->]%parse_components_inv. split; [apply sorted_components|].
  rewrite sorted_perm, detected_concepts.
  eapply sublist_NoDup; [apply selected_init_NoDup|].
  apply fmap_sublist, sublist_filter.
Qed.

(** C7. Platform resolution folds case.  A token that is a case variant of
    [aws], [gcp] or [azure] selects the table of that platform and prints
    nothing.  Any other token leads to the warning: when [sys.stdout] can
    encode the token the warning is printed, the generic table is selected
    (its concepts are user, load balancer, compute, relational storage and
    object storage) and extraction returns a list; when it cannot,
    [print] raises [UnicodeEncodeError], no table is selected and the
    exception leaves [parse_components].  Two tokens are case variants when
    they are equal after case folding, as any two tokens are that differ
    letter by letter in ASCII case only. *)
Theorem platform_resolution :
  (∀ token canonical,
     canonical ∈ known_platforms → case_variant token canonical →
     select_patterns __init__ token = select_patterns __init__ canonical ∧
     (∃ tbl, platform_services __init__ !! canonical = Some tbl ∧
             select_patterns __init__ token = ret tbl) ∧
     ∀ plan_text, parse_components __init__ plan_text token
                  = parse_components __init__ plan_text canonical) ∧
  (∀ token,
     (∀ canonical, canonical ∈ known_platforms → ¬ case_variant token canonical) →
     select_patterns __init__ token
     = if warning_prints token
       then ([unknown_platform_warning token], inr generic_patterns)
       else raise UnicodeEncodeError) ∧
  generic_patterns.*1
  = [lit "user"; lit "load_balancer"; lit "compute"; lit "database_sql";
     lit "storage_object"] ∧
  (∀ plan_text token,
     (∀ canonical, canonical ∈ known_platforms → ¬ case_variant token canonical) →
     warning_prints token = false →
     parse_components __init__ plan_text token = raise UnicodeEncodeError) ∧
  (∀ plan_text token,
     lower token ∈ known_platforms ∨ warning_prints token = true →
     ∃ components, outcome (parse_components __init__ plan_text token) = inr components) ∧
  (∀ token canonical, Forall2 same_letter token canonical → case_variant token canonical).
Proof.
  assert (∀ token,
    (∀ canonical, canonical ∈ known_platforms → ¬ case_variant token canonical) →
    lower token ∉ known_platforms) as Hunknown.
  { intros token Hn Hk. apply (Hn (lower token) Hk).
    unfold case_variant. by rewrite (lower_known _ Hk). }
  split; [|split; [|split; [|split; [|split]]]]; [| | | | |apply same_letters_case_variant].
  - intros token canonical Hk Hv. unfold case_variant in Hv.
    pose proof (lower_known _ Hk) as Hl. rewrite Hl in Hv.
    assert (∃ tbl, platform_services __init__ !! canonical = Some tbl ∧
                   select_patterns __init__ token = ret tbl ∧
                   select_patterns __init__ canonical = ret tbl) as (tbl & Ht & Hs & Hs').
    { unfold select_patterns. rewrite Hv, Hl, init_platform_services.
      unfold known_platforms in Hk. rewrite !elem_of_cons, elem_of_nil in Hk.
      destruct Hk as [->|[->|[->|[]]]];
        [exists aws_services|exists gcp_services|exists azure_services];
        repeat split; reflexivity. }
    split; [by rewrite Hs, Hs'|]. split; [by exists tbl|].
    intros plan. unfold parse_components. by rewrite Hs, Hs'.
  - intros token Hn%Hunknown. rewrite select_patterns_spec, init_platform_services.
    unfold known_platforms in Hn. rewrite !elem_of_cons, elem_of_nil in Hn.
    repeat (destruct (decide _) as [E|_]; [exfalso; tauto|]). done.
  - done.
  - intros plan token Hn%Hunknown Hw. apply parse_components_raises.
    rewrite resolves_init. by rewrite decide_False.
  - intros plan token H. apply parse_components_total; [apply init_well_formed|].
    rewrite resolves_init. destruct (decide _); [done|]. by destruct H.
Qed.

(** C9. Scenario A: on [aws] the plan "We need a load balancer and an S3
    bucket for user uploads" yields user, load_balancer, storage_object (and
    iam), in layers 0, 2, 6 (and 7), and the diagram lists them in that
    order, with a connector row between two layers. *)
Theorem scenario_A :
  let plan_text := lit "We need a load balancer and an S3 bucket for user uploads" in
  ∃ users elb s3 iam,
    parse_components __init__ plan_text (lit "aws") = ret [users; elb; s3; iam] ∧
    concept <$> [users; elb; s3; iam]
    = [lit "user"; lit "load_balancer"; lit "storage_object"; lit "iam"] ∧
    name <$> [users; elb; s3; iam]
    = [lit "Users"; lit "ELB/ALB"; lit "S3 Bucket"; lit "IAM"] ∧
    layer <$> [users; elb; s3; iam] = [0; 2; 6; 7] ∧
    diagram_lines __init__ [users; elb; s3; iam] (lit "Architecture on AWS")
    = inr [border __init__ top_left top_right 40;
           title_row (lit "Architecture on AWS") 40;
           border __init__ tee_left tee_right 40;
           component_row users 40;
           connector_row __init__ 40;
           component_row elb 40;
           connector_row __init__ 40;
           component_row s3 40;
           connector_row __init__ 40;
           component_row iam 40;
           border __init__ bottom_left bottom_right 40] ∧
    ∃ lines,
      diagram_lines __init__ [users; elb; s3; iam] (lit "Architecture on AWS") = inr lines ∧
      generate_ascii_diagram plan_text (lit "aws")
      = ret (fence_open ++ join nl lines ++ fence_close).
Proof.
  intros plan_text. subst plan_text. do 4 eexists.
  split; [vm_compute; reflexivity|].
  repeat split; try (vm_compute; reflexivity).
  eexists. split; vm_compute; reflexivity.
Qed.

(** C1, as the code has it.  On the three named platforms a concept is
    detected only where one of its synonym phrases occurs as a whole word or
    phrase: the match found for its pattern begins and ends with a word
    character and has no word character next to it.  (The generic table of an
    unknown platform is not anchored and matches inside words.) *)
Theorem known_platform_whole_words plan_text platform canonical components d :
  canonical ∈ known_platforms → case_variant platform canonical →
  outcome (parse_components __init__ plan_text platform) = inr components →
  d ∈ components →
  ∃ tbl details i j,
    platform_services __init__ !! canonical = Some tbl ∧
    (concept d, details) ∈ tbl ∧
    Re.search (Entry.pattern details) (lower plan_text) = inr (Some (i, j)) ∧
    Re.whole_word (lower plan_text) i j.
Proof.
  intros Hk Hv [_ ->]%parse_components_inv Hd.
  apply elem_of_sorted, elem_of_detected in Hd as (c & e & Hin & Hh & ->).
  apply hits_search in Hh as [[i j] Hs]. simpl in Hs.
  unfold case_variant in Hv. rewrite (lower_known _ Hk) in Hv.
  rewrite selected_init, Hv in Hin. rewrite init_platform_services.
  assert (∃ tbl,
    (if decide (canonical = lit "aws") then Some aws_services
     else if decide (canonical = lit "gcp") then Some gcp_services
     else if decide (canonical = lit "azure") then Some azure_services
     else None) = Some tbl ∧
    (c, e) ∈ tbl ∧
    Forall (λ kv, Re.anchored_pattern (Entry.pattern kv.2) = true) tbl)
    as (tbl & Ht & Hin' & Ha).
  { unfold known_platforms in Hk. rewrite !elem_of_cons, elem_of_nil in Hk.
    destruct Hk as [->|[->|[->|[]]]];
      [exists aws_services|exists gcp_services|exists azure_services];
      (split; [reflexivity|]); (split; [exact Hin|]);
      auto using aws_services_anchored, gcp_services_anchored, azure_services_anchored. }
  exists tbl, e, i, j. split; [done|]. split; [done|]. split; [done|].
  apply (ReFacts.search_whole_word (Entry.pattern e)); [|done].
  by apply (proj1 (Forall_forall _ _) Ha (c, e)).
Qed.

(** C8, as the code has it.  Text added to the plan behind a blank (a
    further synonym of a detected concept [c] in particular) removes no
    component and leaves every concept listed once; the list stays the same
    unless the longer text makes another concept newly detected. *)
Theorem appended_synonym plan_text platform extra c components :
  outcome (parse_components __init__ plan_text platform) = inr components →
  c ∈ concept <$> components →
  ∃ components',
    outcome (parse_components __init__ (plan_text ++ lit " " ++ extra) platform)
    = inr components' ∧
    components ⊆ components' ∧
    NoDup (concept <$> components') ∧
    ((∀ d, d ∈ components' → concept d ≠ c → d ∈ components) →
     components' = components).
Proof.
  intros [Hres ->]%parse_components_inv Hc.
  rewrite parse_components_init, Hres.
  pose proof (selected_init_NoDup platform) as Hnd.
  set (tbl := selected __init__ platform) in *.
  rewrite !lower_app. set (t := lower plan_text).
  set (u := lower (lit " ") ++ lower extra).
  assert (∀ kv, hits t kv = true → hits (t ++ u) kv = true) as Hmono.
  { intros kv. by apply hits_app. }
  eexists. split; [done|]. split; [|split].
  - intros d. rewrite !elem_of_sorted, !elem_of_detected.
    intros (c' & e & ? & ? & ->). exists c', e. auto.
  - rewrite sorted_perm, detected_concepts.
    eapply sublist_NoDup; [exact Hnd|]. apply fmap_sublist, sublist_filter.
  - intros Hnew. unfold detected. f_equal. f_equal.
    apply filter_ext_in. intros [c' e] Hin. split; [|by apply Hmono].
    intros Hh.
    assert (make_component __init__ c' e ∈ sorted component_le (detected __init__ (t ++ u) tbl))
      as Hd.
    { apply elem_of_sorted, elem_of_detected. by exists c', e. }
    destruct (decide (c' = c)) as [->|Hne].
    + apply list_elem_of_fmap in Hc as (d & -> & Hd0).
      apply elem_of_sorted, elem_of_detected in Hd0 as (c0 & e0 & Hin0 & Hh0 & ->).
      simpl in Hin. by rewrite <-(table_entry_unique tbl c0 e0 e Hnd Hin0 Hin).
    + apply Hnew in Hd; [|done].
      apply elem_of_sorted, elem_of_detected in Hd as (c0 & e0 & Hin0 & Hh0 & Heq).
      assert (c0 = c') as ->.
      { apply (f_equal concept) in Heq. by rewrite !make_component_concept in Heq. }
      by rewrite (table_entry_unique tbl c' e e0 Hnd Hin Hin0).
Qed.

(** C10. On [aws], whenever the word "user" stands alone in the case-folded
    plan text, both the user concept ("Users") and the iam concept ("IAM")
    are among the detected components, and the diagram has a row for each. *)
Theorem aws_user_adds_iam plan_text :
  standalone (lit "user") (lower plan_text) →
  ∃ components users iam,
    outcome (parse_components __init__ plan_text (lit "aws")) = inr components ∧
    users ∈ components ∧ concept users = lit "user" ∧ name users = lit "Users" ∧
    iam ∈ components ∧ concept iam = lit "iam" ∧ name iam = lit "IAM" ∧
    ∀ title, ∃ lines,
      diagram_lines __init__ components title = inr lines ∧
      component_row users (box_width components title) ∈ lines ∧
      component_row iam (box_width components title) ∈ lines.
Proof.
  intros Hw. rewrite parse_components_init.
  assert (resolves __init__ (lit "aws") = true) as -> by (by vm_compute).
  assert (selected __init__ (lit "aws") = aws_services) as -> by (by vm_compute).
  set (users := make_component __init__ (lit "user")
       (entry "\busers?\b|\bclients?\b|\bcustomers?\b" "Users")).
  set (iam := make_component __init__ (lit "iam")
       (entry "\biam\b|\bidentity\b|\brole\b|\buser\b" "IAM")).
  set (components := sorted component_le (detected __init__ (lower plan_text) aws_services)).
  assert (users ∈ components) as Hu.
  { apply elem_of_sorted, elem_of_detected.
    exists (lit "user"), (entry "\busers?\b|\bclients?\b|\bcustomers?\b" "Users").
    split; [|split; [|reflexivity]].
    - apply list_elem_of_lookup. by exists 0%nat.
    - eapply (hits_standalone _ _ (lit "user") [Re.Opt (Re.Chr 115)] 117%N 114%N);
        [done|done|done|done|done|repeat constructor; by eexists|reflexivity|].
      apply list_elem_of_lookup. by exists 0%nat. }
  assert (iam ∈ components) as Hi.
  { apply elem_of_sorted, elem_of_detected.
    exists (lit "iam"), (entry "\biam\b|\bidentity\b|\brole\b|\buser\b" "IAM").
    split; [|split; [|reflexivity]].
    - apply list_elem_of_lookup. by exists 17%nat.
    - eapply (hits_standalone _ _ (lit "user") [] 117%N 114%N);
        [done|done|done|done|done|constructor|reflexivity|].
      apply list_elem_of_lookup. by exists 3%nat. }
  exists components, users, iam. repeat split; try done.
  intros title. destruct (diagram_lines_total __init__ components title) as [lines Hl].
  exists lines. split; [done|]. split; by eapply diagram_lines_rows.
Qed.

(** C5, as the code has it.  The interior width is the largest of: the
    title length plus 4, the largest total over one layer of label length
    plus 4 (all the components of the layer added up), and 40.  Whenever no
    two components share a layer, that is the largest of the title length
    plus 4, the widest single label plus 4, and 40. *)
Theorem box_width_per_layer components title :
  box_width components title
  = Z.max (Z.max (len title + 4)
                 (max_of ((λ c, layer_total components (layer c)) <$> components))) 40 ∧
  (NoDup (layer <$> components) →
   box_width components title
   = Z.max (Z.max (len title + 4)
                  (max_of ((λ c, len (label c) + 4) <$> components))) 40).
Proof.
  unfold box_width. rewrite max_label_width_layer_total. split; [done|].
  intros Hnd. do 3 f_equal. apply list_fmap_ext. intros i c Hc.
  unfold layer_total. rewrite (filter_own_layer components c Hnd).
  - simpl. lia.
  - by eapply list_elem_of_lookup_2.
Qed.

(** C6 at Scenario A.  The title row and the component rows are as wide as
    the interior plus two blanks and the two bars; each connector row is two
    code points narrower; the borders are as wide as their corners plus one
    horizontal glyph per interior column.  With the glyphs of the file that is
    46 for the rows, 44 for the connector rows and 126 for the borders: the
    rows between the borders do not have one width, and none has the width
    of the borders. *)
Theorem scenario_A_row_widths :
  let plan_text := lit "We need a load balancer and an S3 bucket for user uploads" in
  let row := 40 + 2 * len bar in
  let connector := 40 - 2 + 2 * len bar in
  let edge := len top_left + 40 * len (horizontal (chars __init__)) + len top_right in
  ∃ components lines,
    outcome (parse_components __init__ plan_text (lit "aws")) = inr components ∧
    box_width components (lit "Architecture on AWS") = 40 ∧
    diagram_lines __init__ components (lit "Architecture on AWS") = inr lines ∧
    generate_ascii_diagram plan_text (lit "aws")
    = ret (fence_open ++ join nl lines ++ fence_close) ∧
    len <$> lines
    = [edge; row; edge; row; connector; row; connector; row; connector; row; edge] ∧
    (row, connector, edge) = (46, 44, 126).
Proof.
  intros plan_text row connector edge. subst plan_text row connector edge.
  do 2 eexists.
  split; [vm_compute; reflexivity|].
  split; [vm_compute; reflexivity|].
  split; [vm_compute; reflexivity|].
  split; [vm_compute; reflexivity|].
  split; vm_compute; reflexivity.
Qed.

End claims.

(** ** The theorems at concrete inputs *)

(** C2 fails at a platform token that [sys.stdout] cannot encode: with a
    UTF-8 stream and the lone surrogate U+D800 as the platform, the entry
    point raises. *)
Lemma generate_ascii_diagram_outcomes_witness :
  @generate_ascii_diagram utf8_stdout (lit "x") [55296%N] = raise UnicodeEncodeError.
Proof.
  apply (proj1 (@generate_ascii_diagram_outcomes utf8_stdout)).
  - discriminate.
  - discriminate.
  - apply (bool_decide_unpack _). vm_compute. exact I.
  - vm_compute. reflexivity.
Defined.

Lemma components_sorted_unique_witness :
  ∃ components,
    outcome (parse_components __init__ (lit "IAM roles for the users of a queue") (lit "aws"))
    = inr components ∧
    StronglySorted layer_then_name components ∧
    NoDup (concept <$> components).
Proof.
  eexists. split; [vm_compute; reflexivity|].
  apply (components_sorted_unique (lit "IAM roles for the users of a queue") (lit "aws")).
  vm_compute. reflexivity.
Defined.

(** C7 fails at the same token: extraction raises instead of falling back. *)
Lemma platform_resolution_witness :
  select_patterns __init__ (lit "AzUrE") = select_patterns __init__ (lit "azure") ∧
  @parse_components utf8_stdout __init__ (lit "x") [55296%N] = raise UnicodeEncodeError.
Proof.
  split.
  - apply (proj1 platform_resolution (lit "AzUrE") (lit "azure")).
    + unfold known_platforms. rewrite !elem_of_cons. auto.
    + reflexivity.
  - apply (proj1 (proj2 (proj2 (proj2 (@platform_resolution utf8_stdout))))).
    + intros canonical. unfold known_platforms. rewrite !elem_of_cons, elem_of_nil.
      intros [->|[->|[->|[]]]]; unfold case_variant; by vm_compute.
    + vm_compute. reflexivity.
Defined.

Lemma known_platform_whole_words_witness :
  ∃ tbl details i j,
    platform_services __init__ !! lit "gcp" = Some tbl ∧
    (lit "compute", details) ∈ tbl ∧
    Re.search (Entry.pattern details) (lit "one vm and vmware") = inr (Some (i, j)) ∧
    Re.whole_word (lit "one vm and vmware") i j.
Proof.
  apply (known_platform_whole_words (lit "One VM and VMware") (lit "GCP") (lit "gcp")
           [make_component __init__ (lit "compute")
              (entry "\bcompute engine\b|\bvm\b|\binstance\b|\bgce\b" "Compute Engine")]
           (make_component __init__ (lit "compute")
              (entry "\bcompute engine\b|\bvm\b|\binstance\b|\bgce\b" "Compute Engine"))).
  - unfold known_platforms. rewrite !elem_of_cons. auto.
  - reflexivity.
  - vm_compute. reflexivity.
  - left.
Defined.

(** C1 fails on the generic table: "server" lies inside the word "observers"
    and the compute concept is detected all the same. *)
Lemma generic_table_matches_inside_words :
  lit "observers" = lit "ob" ++ lit "server" ++ lit "s" ∧
  Re.search (lit "server|compute|instance") (lower (lit "observers"))
  = inr (Some (2%nat, 8%nat)) ∧
  ¬ Re.whole_word (lower (lit "observers")) 2 8 ∧
  outcome (parse_components __init__ (lit "observers") (lit "marsnet"))
  = inr [make_component __init__ (lit "compute") (entry "server|compute|instance" "Compute")].
Proof.
  repeat split; try (vm_compute; reflexivity).
  intros (_ & _ & _ & H & _). vm_compute in H. discriminate.
Qed.

Lemma appended_synonym_witness :
  ∃ components',
    outcome (parse_components __init__ (lit "a queue" ++ lit " " ++ lit "sqs") (lit "aws"))
    = inr components' ∧
    [make_component __init__ (lit "queue") (entry "\bsqs\b|\bqueue\b" "SQS")] ⊆ components' ∧
    NoDup (concept <$> components') ∧
    ((∀ d, d ∈ components' → concept d ≠ lit "queue" →
        d ∈ [make_component __init__ (lit "queue") (entry "\bsqs\b|\bqueue\b" "SQS")]) →
     components' = [make_component __init__ (lit "queue") (entry "\bsqs\b|\bqueue\b" "SQS")]).
Proof.
  apply (appended_synonym (lit "a queue") (lit "aws") (lit "sqs") (lit "queue")).
  - vm_compute. reflexivity.
  - left.
Defined.

(** C8 fails on [aws]: "users" yields the user concept only; with the synonym
    "user" added, the pattern of iam matches as well and IAM joins the list. *)
Lemma appended_synonym_adds_iam :
  outcome (parse_components __init__ (lit "users") (lit "aws"))
  = inr [make_component __init__ (lit "user")
           (entry "\busers?\b|\bclients?\b|\bcustomers?\b" "Users")] ∧
  Re.search (lit "\busers?\b|\bclients?\b|\bcustomers?\b") (lit "user")
  = inr (Some (0%nat, 4%nat)) ∧
  outcome (parse_components __init__ (lit "users" ++ lit " " ++ lit "user") (lit "aws"))
  = inr [make_component __init__ (lit "user")
           (entry "\busers?\b|\bclients?\b|\bcustomers?\b" "Users");
         make_component __init__ (lit "iam")
           (entry "\biam\b|\bidentity\b|\brole\b|\buser\b" "IAM")].
Proof. repeat split; vm_compute; reflexivity. Qed.

Lemma aws_user_adds_iam_witness :
  ∃ components users iam,
    outcome (parse_components __init__ (lit "Each USER uploads") (lit "aws")) = inr components ∧
    users ∈ components ∧ concept users = lit "user" ∧ name users = lit "Users" ∧
    iam ∈ components ∧ concept iam = lit "iam" ∧ name iam = lit "IAM" ∧
    ∀ title, ∃ lines,
      diagram_lines __init__ components title = inr lines ∧
      component_row users (box_width components title) ∈ lines ∧
      component_row iam (box_width components title) ∈ lines.
Proof.
  apply (aws_user_adds_iam (lit "Each USER uploads")).
  exists (lit "each "), (lit " uploads"). repeat split; reflexivity.
Defined.

Lemma box_width_per_layer_witness :
  box_width [Component (lit "user") (lit "Users") [63743; 252; 235; 8226]%N 0;
             Component (lit "iam") (lit "IAM") [63743; 252; 238; 234]%N 7]
            (lit "Architecture on AWS")
  = Z.max (Z.max (len (lit "Architecture on AWS") + 4)
                 (max_of ((λ c, len (label c) + 4) <$>
                          [Component (lit "user") (lit "Users") [63743; 252; 235; 8226]%N 0;
                           Component (lit "iam") (lit "IAM") [63743; 252; 238; 234]%N 7]))) 40.
Proof.
  apply (proj2 (box_width_per_layer
                  [Component (lit "user") (lit "Users") [63743; 252; 235; 8226]%N 0;
                   Component (lit "iam") (lit "IAM") [63743; 252; 238; 234]%N 7]
                  (lit "Architecture on AWS"))).
  apply (bool_decide_unpack _). vm_compute. exact I.
Defined.

(** C5 fails when a layer holds several components: the four components of
    layer 7 give an interior width of 60, where the widest label plus 4 is 19
    and the claimed maximum is 40. *)
Lemma box_width_sums_a_layer :
  ∃ components,
    outcome (parse_components __init__ (lit "vpc security group iam monitor") (lit "aws"))
    = inr components ∧
    layer <$> components = [7; 7; 7; 7] ∧
    box_width components (lit "Architecture on AWS") = 60 ∧
    max_of ((λ c, len (label c) + 4) <$> components) = 19 ∧
    Z.max (Z.max (len (lit "Architecture on AWS") + 4)
                 (max_of ((λ c, len (label c) + 4) <$> components))) 40 = 40.
Proof.
  eexists. split; [vm_compute; reflexivity|].
  repeat split; vm_compute; reflexivity.
Qed.

(** ** Further scenarios *)

Example center_pads_left_first : center (lit "ab") 7 = lit "   ab  ".
Proof. reflexivity. Qed.

Example inner_slice : slice (lit "abcdef") 1 (-1) = lit "bcde".
Proof. reflexivity. Qed.

(** [\bvm\b] does not match inside "vmware". *)
Example vm_not_in_vmware :
  Re.search (lit "\bcompute engine\b|\bvm\b|\binstance\b|\bgce\b") (lit "vmware hosts") = inr None ∧
  Re.search (lit "\bcompute engine\b|\bvm\b|\binstance\b|\bgce\b") (lit "one vm") = inr (Some (4%nat, 6%nat)).
Proof. split; vm_compute; reflexivity. Qed.

(** Scenario B: no plan. *)
Example scenario_B : generate_ascii_diagram [] (lit "aws") = ret no_plan_text.
Proof. reflexivity. Qed.

(** Scenario C: an unknown platform falls back to the generic table. *)
Example scenario_C :
  parse_components __init__ (lit "some servers") (lit "marsnet")
  = ([unknown_platform_warning (lit "marsnet")],
     inr [make_component __init__ (lit "compute") (entry "server|compute|instance" "Compute")]).
Proof. vm_compute. reflexivity. Qed.

(** Scenario D: nothing detected. *)
Example scenario_D :
  generate_ascii_diagram (lit "nothing relevant here") (lit "gcp")
  = ret (no_components_text (lit "Architecture on GCP")).
Proof. vm_compute. reflexivity. Qed.

(** Components with the same layer and name keep the order of the table. *)
Example equal_keys_keep_table_order :
  concept <$> sorted component_le (detected __init__ (lit "pub/sub") gcp_services)
  = [lit "queue"; lit "notification"].
Proof. vm_compute. reflexivity. Qed.

(** ** Further properties of the renderer *)

Section outcome_facts.
Context `{U : UnicodeData}.

Lemma outcome_create_architecture_diagram self plan c platform prefix :
  outcome (create_architecture_diagram self plan (c :: platform) prefix) =
    match outcome (parse_components self plan (c :: platform)) with
    | inl e => inl e
    | inr components =>
      build_diagram_text self components (prefix ++ lit " on " ++ upper (c :: platform))
    end.
Proof.
  unfold create_architecture_diagram.
  destruct (parse_components _ _ _) as [out [e|components]]; [done|]. simpl.
  by destruct (build_diagram_text _ _ _).
Qed.

Lemma generate_ascii_diagram_outcome c plan d platform :
  outcome (generate_ascii_diagram (c :: plan) (d :: platform))
  = if resolves __init__ (d :: platform)
    then build_diagram_text __init__
           (sorted component_le
              (detected __init__ (lower (c :: plan)) (selected __init__ (d :: platform))))
           (full_title (d :: platform))
    else inl UnicodeEncodeError.
Proof.
  unfold generate_ascii_diagram.
  rewrite outcome_create_architecture_diagram, parse_components_init.
  by destruct (resolves __init__ (d :: platform)).
Qed.

(** A returned text is the text of the detected components. *)
Lemma generate_ascii_diagram_inv c plan d platform text :
  outcome (generate_ascii_diagram (c :: plan) (d :: platform)) = inr text →
  resolves __init__ (d :: platform) = true ∧
  build_diagram_text __init__
    (sorted component_le
       (detected __init__ (lower (c :: plan)) (selected __init__ (d :: platform))))
    (full_title (d :: platform)) = inr text.
Proof.
  rewrite generate_ascii_diagram_outcome.
  by destruct (resolves __init__ (d :: platform)).
Qed.

Lemma sorted_nil_inv {A} (le : A → A → bool) l : sorted le l = [] → l = [].
Proof.
  intros H. pose proof (sorted_perm le l) as Hp. rewrite H in Hp.
  symmetry in Hp. by apply Permutation_nil_r in Hp.
Qed.

Lemma table_catalogued platform : Forall (λ kv, catalogued kv = true) (selected __init__ platform).
Proof.
  rewrite selected_init.
  repeat destruct (decide _);
    repeat (apply Forall_cons; split; [vm_compute; reflexivity|]); constructor.
Qed.

End outcome_facts.

Section extraction_properties.
Context `{U : UnicodeData}.

(** X1. Extraction is exact: a component list that extraction returns holds
    one component for each entry of the selected table whose pattern matches
    the case-folded plan text, built from that entry and the glyph and layer
    tables, and nothing else. *)
Theorem detection_exact plan_text platform components :
  outcome (parse_components __init__ plan_text platform) = inr components →
  (∀ d, d ∈ components ↔
     ∃ c e, (c, e) ∈ selected __init__ platform ∧
            hits (lower plan_text) (c, e) = true ∧
            d = make_component __init__ c e) ∧
  concept <$> components
  ≡ₚ (filter (λ kv, hits (lower plan_text) kv = true) (selected __init__ platform)).*1 ∧
  (length components ≤ length (selected __init__ platform))%nat.
Proof.
  intros [_ ->]%parse_components_inv. split; [|split].
  - intros d. by rewrite elem_of_sorted, elem_of_detected.
  - by rewrite sorted_perm, detected_concepts.
  - rewrite sorted_perm. unfold detected. rewrite length_fmap. apply length_filter.
Qed.

(** X2. With a plan and a platform given, a text that the entry point
    returns is the "No specific components detected" block, with the title
    "Architecture on" and the upper-cased platform, exactly when no pattern of
    the selected table matches the case-folded plan text. *)
Theorem placeholder_iff_no_match c plan_text d platform text :
  outcome (generate_ascii_diagram (c :: plan_text) (d :: platform)) = inr text →
  text = no_components_text (full_title (d :: platform))
  ↔ ∀ kv, kv ∈ selected __init__ (d :: platform) → hits (lower (c :: plan_text)) kv = false.
Proof.
  intros [_ Hb]%generate_ascii_diagram_inv. revert Hb.
  set (t := lower (c :: plan_text)). set (tbl := selected __init__ (d :: platform)).
  intros Hb. split.
  - intros -> kv Hin. destruct (hits t kv) eqn:Hh; [|done]. exfalso.
    assert (make_component __init__ kv.1 kv.2
            ∈ sorted component_le (detected __init__ t tbl)) as Hd.
    { apply elem_of_sorted, elem_of_detected. exists kv.1, kv.2. by destruct kv. }
    unfold build_diagram_text in Hb.
    destruct (sorted component_le (detected __init__ t tbl)) as [|x l] eqn:E;
      [by apply elem_of_nil in Hd|].
    destruct (diagram_lines_total __init__ (x :: l) (full_title (d :: platform)))
      as [lines Hl].
    rewrite Hl in Hb. unfold diagram_lines in Hl.
    destruct (layer_rows _ _ _ _ _ _) as [e|rows]; [done|]. injection Hl as <-.
    injection Hb as Hb. cbv in Hb. discriminate Hb.
  - intros Hn. assert (detected __init__ t tbl = []) as E.
    { unfold detected. rewrite filter_none; [done|].
      intros kv Hin. by rewrite (Hn kv Hin). }
    rewrite E in Hb. by injection Hb as <-.
Qed.

(** X3. Whatever the two arguments are, a text that the entry point returns
    opens with the fence line and closes with the fence. *)
Theorem output_is_fenced plan_text target_platform text :
  outcome (generate_ascii_diagram plan_text target_platform) = inr text →
  ∃ body, text = fence_open ++ body ++ fence_close.
Proof.
  destruct plan_text as [|c plan]; [intros [= <-]; by eexists|].
  destruct target_platform as [|d platform]; [intros [= <-]; by eexists|].
  intros [_ Hb]%generate_ascii_diagram_inv. unfold build_diagram_text in Hb.
  destruct (sorted _ _) as [|x l].
  - injection Hb as <-. unfold no_components_text.
    exists (lit "No specific components detected for " ++ full_title (d :: platform) ++ lit ".").
    by rewrite <-!app_assoc.
  - destruct (diagram_lines_total __init__ (x :: l) (full_title (d :: platform)))
      as [lines Hl]. rewrite Hl in Hb. injection Hb as <-. by eexists.
Qed.

(** X9. The tables of [__init__] are complete: every component of a list
    that extraction returns carries the glyph and the layer that the glyph
    and layer tables give its concept; the placeholder glyph and the default
    layer 99 never occur, and the layer lies between 0 and 8. *)
Theorem defaults_never_used plan_text platform components :
  outcome (parse_components __init__ plan_text platform) = inr components →
  ∀ d, d ∈ components →
    service_icons __init__ !! concept d = Some (icon d) ∧
    icon d ≠ unknown_icon ∧
    layer_priority __init__ !! concept d = Some (layer d) ∧
    0 ≤ layer d ≤ 8.
Proof.
  intros [_ ->]%parse_components_inv.
  intros d (c & e & Hin & _ & ->)%elem_of_sorted%elem_of_detected.
  pose proof (proj1 (Forall_forall _ _) (table_catalogued platform) _ Hin) as Hc.
  unfold catalogued in Hc. unfold make_component. cbn [concept icon layer fst] in *.
  destruct (service_icons __init__ !! c) as [g|]; [|done].
  destruct (layer_priority __init__ !! c) as [l|]; [|done].
  apply andb_true_iff in Hc as [[Hg Hl0]%andb_true_iff Hl8].
  apply bool_decide_eq_true in Hg. apply Z.leb_le in Hl0, Hl8. done.
Qed.

End extraction_properties.

Section layout_structure.

Lemma filter_nonempty {A} (P : A → Prop) `{∀ x, Decision (P x)} (l : list A) x :
  x ∈ l → P x → filter P l ≠ [].
Proof.
  intros Hx HP E. assert (x ∈ filter P l) as Hin by (by apply list_elem_of_filter).
  rewrite E in Hin. by apply elem_of_nil in Hin.
Qed.

Lemma group_layers_get cs k :
  layers_get (group_layers cs) k =
    match filter (λ c, layer c = k) cs with [] => None | v => Some v end.
Proof. apply (group_layers_groups cs). Qed.

Lemma group_layers_keys cs k : k ∈ (group_layers cs).*1 ↔ k ∈ layer <$> cs.
Proof.
  split.
  - intros [v Hv]%layers_get_is_Some. rewrite group_layers_get in Hv.
    destruct (filter (λ c, layer c = k) cs) as [|c f] eqn:E; [done|].
    assert (c ∈ filter (λ c, layer c = k) cs) as [Hc Hin]%list_elem_of_filter
      by (rewrite E; left).
    apply list_elem_of_fmap. by exists c.
  - intros (c & -> & Hc)%list_elem_of_fmap.
    pose proof (group_layers_get cs (layer c)) as Hg.
    destruct (filter (λ c0, layer c0 = layer c) cs) as [|c' f] eqn:E.
    + by apply (filter_nonempty (λ c0, layer c0 = layer c) cs c) in E.
    + apply layers_get_elem in Hg. apply list_elem_of_fmap. by eexists (_, _).
Qed.

Lemma strictly_sorted l :
  StronglySorted (λ a b, Z.leb a b = true) l → NoDup l → StronglySorted Z.lt l.
Proof.
  induction 1 as [|x l _ IH Hx]; intros Hnd; [constructor|].
  apply NoDup_cons in Hnd as [Hx' Hnd]. constructor; [by apply IH|].
  apply Forall_forall. intros y Hy.
  pose proof (proj1 (Forall_forall _ _) Hx y Hy) as Hle. apply Z.leb_le in Hle.
  assert (x ≠ y) by (by intros ->). lia.
Qed.

Lemma sorted_keys_strict l : NoDup l → StronglySorted Z.lt (sorted Z.leb l).
Proof.
  intros Hnd. apply strictly_sorted; [|by rewrite sorted_perm].
  apply sorted_sorted.
  - intros x y. rewrite Z.leb_gt, Z.leb_le. lia.
  - intros x y z. rewrite !Z.leb_le. lia.
Qed.

Lemma layer_rows_layered self cs bw : ∀ todo i n,
  n = i + len todo → (∀ k, k ∈ todo → k ∈ layer <$> cs) →
  layer_rows self (group_layers cs) bw todo i n = inr (layered_rows self cs bw todo).
Proof.
  induction todo as [|k rest IH]; intros i n Hn Hin; [done|].
  cbn [layer_rows layered_rows]. rewrite group_layers_get.
  assert (k ∈ layer <$> cs) as (c & Hk & Hc)%list_elem_of_fmap by (apply Hin; left).
  destruct (filter (λ c0, layer c0 = k) cs) as [|c' f] eqn:E.
  { by apply (filter_nonempty (λ c0, layer c0 = k) cs c) in E. }
  rewrite (IH (i + 1) n).
  - do 3 f_equal. destruct rest as [|k' rest'].
    + destruct (Z.ltb_spec i (n - 1)); [|done]. unfold len in Hn. simpl in Hn. lia.
    + destruct (Z.ltb_spec i (n - 1)); [done|].
      unfold len in Hn. cbn [length] in Hn. lia.
  - unfold len in *. cbn [length] in Hn. lia.
  - intros k' Hk'. apply Hin. by right.
Qed.

Lemma diagram_lines_layered self cs title :
  diagram_lines self cs title
  = inr ([border self top_left top_right (box_width cs title);
          title_row title (box_width cs title);
          border self tee_left tee_right (box_width cs title)]
         ++ layered_rows self cs (box_width cs title) (sorted Z.leb (group_layers cs).*1)
         ++ [border self bottom_left bottom_right (box_width cs title)]).
Proof.
  unfold diagram_lines. rewrite (layer_rows_layered self cs); [done|lia|].
  intros k. by rewrite elem_of_sorted, group_layers_keys.
Qed.

Lemma layered_rows_length self cs bw ks :
  length (layered_rows self cs bw ks)
  = (sum_list ((λ k, length (filter (λ c, layer c = k) cs)) <$> ks) + pred (length ks))%nat.
Proof.
  induction ks as [|k rest IH]; [done|].
  cbn [layered_rows]. rewrite !length_app, length_fmap, IH, fmap_cons.
  cbn [sum_list sum_list_with length]. destruct rest; simpl; lia.
Qed.

Lemma sum_filter_layers ks : ∀ cs,
  NoDup ks → (∀ c, c ∈ cs → layer c ∈ ks) →
  sum_list ((λ k, length (filter (λ c, layer c = k) cs)) <$> ks) = length cs.
Proof.
  induction ks as [|k rest IH]; intros cs Hnd Hin.
  - destruct cs as [|c cs]; [done|]. exfalso.
    by apply (elem_of_nil (layer c)), Hin; left.
  - apply NoDup_cons in Hnd as [Hk Hnd]. rewrite fmap_cons. cbn [sum_list sum_list_with].
    rewrite (list_fmap_ext _
               (λ k', length (filter (λ c, layer c = k') (filter (λ c, layer c ≠ k) cs)))
               rest).
    + rewrite IH; [|done|].
      * rewrite <-(Permutation_length (filter_app_complement (λ c, layer c = k) cs)).
        by rewrite length_app.
      * intros c [Hc Hc']%list_elem_of_filter.
        pose proof (Hin c Hc') as [?|?]%elem_of_cons; [congruence|done].
    + intros i k' Hk'. f_equal. rewrite list_filter_filter.
      apply filter_ext_in. intros c Hc. split; [|tauto].
      intros Hl. split; [done|]. intros Heq. apply Hk.
      rewrite <-Heq, Hl. by eapply list_elem_of_lookup_2.
Qed.

Lemma layer_width_elem c cs : c ∈ cs → len (label c) + 4 ≤ layer_width cs.
Proof.
  assert (∀ l, 0 ≤ layer_width l) as Hpos.
  { induction l; simpl; unfold len in *; lia. }
  induction cs as [|c' cs IH]; [by intros ?%elem_of_nil|].
  intros [->|Hin]%elem_of_cons; simpl.
  - pose proof (Hpos cs). lia.
  - specialize (IH Hin). unfold len in *. lia.
Qed.

Lemma box_width_label cs title c : c ∈ cs → len (label c) + 4 ≤ box_width cs title.
Proof.
  intros Hc. unfold box_width. rewrite max_label_width_layer_total.
  assert (layer_total cs (layer c) ≤ max_of ((λ c0, layer_total cs (layer c0)) <$> cs)).
  { apply max_of_elem, list_elem_of_fmap. by exists c. }
  assert (len (label c) + 4 ≤ layer_total cs (layer c)).
  { apply layer_width_elem. by apply list_elem_of_filter. }
  lia.
Qed.

(** X4. The lines of a diagram: top border, title row, separator, then for
    the layers that occur, in strictly ascending order, the rows of the
    components of each layer in the order of the component list, with one
    connector row between two consecutive layers and none behind the last,
    then the bottom border. *)
Theorem diagram_layout self components title :
  ∃ ks,
    StronglySorted Z.lt ks ∧
    (∀ k, k ∈ ks ↔ k ∈ layer <$> components) ∧
    diagram_lines self components title
    = inr ([border self top_left top_right (box_width components title);
            title_row title (box_width components title);
            border self tee_left tee_right (box_width components title)]
           ++ layered_rows self components (box_width components title) ks
           ++ [border self bottom_left bottom_right (box_width components title)]).
Proof.
  exists (sorted Z.leb (group_layers components).*1). split; [|split].
  - apply sorted_keys_strict, (group_layers_groups components).
  - intros k. by rewrite elem_of_sorted, group_layers_keys.
  - apply diagram_lines_layered.
Qed.

(** X5. A diagram of a non-empty component list has one line per component,
    one connector line less than there are distinct layers, and four lines
    for the borders, the title and the separator. *)
Theorem diagram_line_count self components title lines :
  components ≠ [] →
  diagram_lines self components title = inr lines →
  length lines
  = (3 + length components + length (remove_dups (layer <$> components)))%nat.
Proof.
  intros Hne. rewrite diagram_lines_layered. intros [= <-].
  set (ks := sorted Z.leb (group_layers components).*1).
  assert (NoDup ks) as Hnd.
  { unfold ks. rewrite sorted_perm. apply (group_layers_groups components). }
  assert (∀ k, k ∈ ks ↔ k ∈ layer <$> components) as Hks.
  { intros k. unfold ks. by rewrite elem_of_sorted, group_layers_keys. }
  assert (length ks = length (remove_dups (layer <$> components))) as <-.
  { apply Permutation_length, NoDup_Permutation; [done|apply NoDup_remove_dups|].
    intros k. by rewrite Hks, elem_of_remove_dups. }
  cbn [app length]. rewrite !length_app, layered_rows_length, sum_filter_layers; [|done|].
  - destruct ks as [|k ks'] eqn:E; [|simpl; lia].
    destruct components as [|c cs]; [done|]. exfalso.
    apply (elem_of_nil (layer c)), Hks. rewrite fmap_cons. left.
  - intros c Hc. apply Hks. by apply list_elem_of_fmap_2.
Qed.

(** X6. No label overflows its row.  The interior width is at least 40, at
    least the title length plus 4 and at least every label length plus 4; so
    each component row is the bar, a blank, the whole label, at least two
    blanks of padding, a blank and the bar, and the title row and all
    component rows have one width.  Each connector row is two code points
    narrower than those rows. *)
Theorem rows_fit components title :
  let bw := box_width components title in
  40 ≤ bw ∧ len title + 4 ≤ bw ∧
  (∀ c, c ∈ components →
     len (label c) + 4 ≤ bw ∧
     component_row c bw
     = bar ++ lit " " ++ label c ++ spaces (bw - 2 - len (label c)) ++ lit " " ++ bar ∧
     len (component_row c bw) = bw + 2 * len bar) ∧
  len (title_row title bw) = bw + 2 * len bar ∧
  len (connector_row __init__ bw) = bw - 2 + 2 * len bar ∧
  (∀ l r, len (border __init__ l r bw)
          = len l + bw * len (horizontal (chars __init__)) + len r).
Proof.
  intros bw.
  assert (40 ≤ bw ∧ len title + 4 ≤ bw) as [H40 Ht] by (unfold bw, box_width; lia).
  split; [done|]. split; [done|]. split; [|split; [|split]].
  - intros c Hc. pose proof (box_width_label components title c Hc) as Hl.
    fold bw in Hl. split; [done|]. split; [|by apply component_row_len].
    unfold component_row, ljust.
    destruct (Z.geb_spec (len (label c)) (bw - 2)); [lia|].
    by rewrite <-!app_assoc.
  - by apply title_row_len.
  - apply connector_row_len; [lia|]. change (len (arrow_down (chars __init__))) with 3. lia.
  - intros l r. apply border_len. lia.
Qed.

(** X12. The grouping loop of [build_diagram_text] partitions the components
    by layer: the keys of [layers] are the layers that occur, each once, and
    the list under a key holds the components of that layer in the order of
    the component list. *)
Theorem group_layers_partition components :
  NoDup (group_layers components).*1 ∧
  (∀ k, k ∈ (group_layers components).*1 ↔ k ∈ layer <$> components) ∧
  (∀ k v, layers_get (group_layers components) k = Some v ↔
          v = filter (λ c, layer c = k) components ∧ v ≠ []) ∧
  (∀ k v, (k, v) ∈ group_layers components ↔
          layers_get (group_layers components) k = Some v).
Proof.
  pose proof (group_layers_groups components) as [Hnd Hget].
  split; [done|]. split; [apply group_layers_keys|]. split.
  - intros k v. rewrite Hget.
    destruct (filter (λ c, layer c = k) components) as [|c f]; split.
    + done.
    + by intros [-> ?].
    + by intros [= <-].
    + by intros [-> _].
  - intros k v. split; [by apply layers_elem_get|apply layers_get_elem].
Qed.

End layout_structure.

Section case_and_words.
Context `{U : UnicodeData}.

Lemma same_letter_upper x y : same_letter x y → upper_char x = upper_char y.
Proof.
  unfold same_letter, upper_char, is_ascii, between.
  intros [->|[[H ->]|[H ->]]]; [done| |];
    apply andb_true_iff in H as [H1%N.leb_le H2%N.leb_le].
  - destruct (N.ltb_spec x 128), (N.ltb_spec (x + 32) 128); try lia.
    destruct (N.leb_spec 97 x), (N.leb_spec x 122),
      (N.leb_spec 97 (x + 32)), (N.leb_spec (x + 32) 122); simpl; try lia.
    f_equal. lia.
  - destruct (N.ltb_spec y 128), (N.ltb_spec (y + 32) 128); try lia.
    destruct (N.leb_spec 97 y), (N.leb_spec y 122),
      (N.leb_spec 97 (y + 32)), (N.leb_spec (y + 32) 122); simpl; try lia.
    f_equal. lia.
Qed.

Lemma same_letters_upper a b : Forall2 same_letter a b → upper a = upper b.
Proof.
  unfold upper. induction 1 as [|x y a b Hxy _ IH]; [done|].
  cbn [mbind list_bind]. by rewrite (same_letter_upper x y), IH.
Qed.

Lemma concept_detected_entry self t (tbl : table) c e :
  NoDup tbl.*1 → (c, e) ∈ tbl →
  c ∈ concept <$> sorted component_le (detected self t tbl) ↔ hits t (c, e) = true.
Proof.
  intros Hnd Hin. rewrite list_elem_of_fmap. split.
  - intros (d & -> & (c' & e' & Hin' & Hh & ->)%elem_of_sorted%elem_of_detected).
    rewrite make_component_concept in Hin.
    by rewrite (table_entry_unique tbl c' e e' Hnd Hin Hin').
  - intros Hh. exists (make_component self c e). split; [done|].
    apply elem_of_sorted, elem_of_detected. by exists c, e.
Qed.

Lemma matches_chars_inv t rest : ∀ w i j,
  Re.matches t (((λ c, Re.One (Re.Chr c)) <$> w) ++ rest) i j →
  t = take i t ++ w ++ drop (i + length w) t.
Proof.
  induction w as [|a w IH]; intros i j Hm.
  - simpl. by rewrite Nat.add_0_r, take_drop.
  - rewrite fmap_cons in Hm. inversion Hm as [|? ? ? k ? Hs Hm'| |]; subst.
    apply ReFacts.step_chr in Hs as [-> Hl].
    pose proof (IH _ _ Hm') as Heq.
    rewrite (take_S_r _ _ _ Hl), <-app_assoc in Heq.
    by replace (i + length (a :: w))%nat with (S i + length w)%nat by (simpl; lia).
Qed.

Lemma literal_branch_occurs t w opts :
  Forall (λ it, ∃ a, it = Re.Opt a) opts →
  (∃ i j, (i ≤ length t)%nat ∧
          Re.matches t (((λ c, Re.One (Re.Chr c)) <$> w) ++ opts) i j)
  ↔ occurs w t.
Proof.
  intros Hopts. split.
  - intros (i & j & _ & Hm). apply matches_chars_inv in Hm. by eexists _, _.
  - intros (pre & post & Ht). exists (length pre), (length pre + length w)%nat. split.
    + subst t. rewrite length_app. lia.
    + apply (ReFacts.matches_chars t pre post); [done|].
      rewrite <-(app_nil_r opts). apply ReFacts.matches_skip_all; [done|constructor].
Qed.

Lemma hits_literals t kv (ws : list (str * list Re.item)) :
  Re.compile (Entry.pattern kv.2)
  = Some ((λ wo, ((λ c, Re.One (Re.Chr c)) <$> wo.1) ++ wo.2) <$> ws) →
  Forall (λ wo, Forall (λ it, ∃ a, it = Re.Opt a) wo.2) ws →
  hits t kv = true ↔ ∃ wo, wo ∈ ws ∧ occurs wo.1 t.
Proof.
  intros Hr Hws. rewrite hits_search, ReFacts.search_is_Some. split.
  - intros (r & b & i & j & Hr' & Hb & Hi & Hm).
    rewrite Hr in Hr'. injection Hr' as <-.
    apply list_elem_of_fmap in Hb as (wo & -> & Hwo). exists wo. split; [done|].
    apply (literal_branch_occurs t wo.1 wo.2); [|by eauto].
    by apply (proj1 (Forall_forall _ _) Hws).
  - intros (wo & Hwo & Ho).
    apply (literal_branch_occurs t wo.1 wo.2) in Ho as (i & j & Hi & Hm);
      [|by apply (proj1 (Forall_forall _ _) Hws)].
    eexists _, _, i, j. split; [done|]. split; [|done].
    apply list_elem_of_fmap. by exists wo.
Qed.

Lemma str_le_refl a : str_le a a = true.
Proof. induction a as [|x a IH]; [done|]. simpl. by rewrite N.ltb_irrefl, N.eqb_refl. Qed.

Lemma filter_insort {A} (le : A → A → bool) (P : A → Prop) `{∀ x, Decision (P x)} x l :
  (∀ a b, P a → P b → le a b = true) →
  filter P (insort le x l) = filter P (x :: l).
Proof.
  intros HP. induction l as [|y l IH]; [done|]. simpl.
  destruct (le x y) eqn:E; [done|].
  rewrite (filter_cons _ y), IH, !(filter_cons _ x), (filter_cons _ y).
  destruct (decide (P x)) as [Hx|Hx], (decide (P y)) as [Hy|Hy]; try done.
  by rewrite (HP x y Hx Hy) in E.
Qed.

Lemma filter_sorted {A} (le : A → A → bool) (P : A → Prop) `{∀ x, Decision (P x)} l :
  (∀ a b, P a → P b → le a b = true) →
  filter P (sorted le l) = filter P l.
Proof.
  intros HP. induction l as [|x l IH]; [done|].
  change (sorted le (x :: l)) with (insort le x (sorted le l)).
  by rewrite filter_insort, !filter_cons, IH.
Qed.

(** X7. The diagram does not depend on the letter case of the plan text: two
    plan texts that differ letter by letter in ASCII case only give the same
    result and the same output. *)
Theorem plan_case_insensitive plan1 plan2 target_platform :
  Forall2 same_letter plan1 plan2 →
  generate_ascii_diagram plan1 target_platform
  = generate_ascii_diagram plan2 target_platform.
Proof.
  intros H. pose proof (same_letters_case_variant _ _ H) as Hl. unfold case_variant in Hl.
  destruct H as [|x y l1 l2 _ _]; [done|].
  unfold generate_ascii_diagram. destruct target_platform as [|d platform]; [done|].
  unfold create_architecture_diagram, parse_components. by rewrite Hl.
Qed.

(** X8. Nor does the returned text depend on the letter case of the platform
    token: two tokens that differ letter by letter in ASCII case only select
    the same table and give the same title, hence the same text. *)
Theorem platform_case_insensitive plan_text platform1 platform2 :
  Forall2 same_letter platform1 platform2 →
  outcome (generate_ascii_diagram plan_text platform1)
  = outcome (generate_ascii_diagram plan_text platform2).
Proof.
  intros H. pose proof (same_letters_case_variant _ _ H) as Hl. unfold case_variant in Hl.
  pose proof (same_letters_upper _ _ H) as Hu.
  pose proof (same_letters_warning_prints _ _ H) as Hw.
  destruct plan_text as [|c plan]; [done|].
  destruct H as [|x y l1 l2 _ _]; [done|].
  rewrite !generate_ascii_diagram_outcome. unfold full_title, selected, resolves.
  by rewrite Hl, Hu, Hw.
Qed.

(** X10. On an unknown platform detection is substring search: in a list
    that extraction returns, each of the five generic concepts is present
    exactly when one of its words occurs somewhere in the case-folded plan
    text, inside a longer word or not. *)
Theorem generic_detection_is_substring plan_text platform components :
  (∀ canonical, canonical ∈ known_platforms → ¬ case_variant platform canonical) →
  outcome (parse_components __init__ plan_text platform) = inr components →
  (lit "user" ∈ concept <$> components ↔ occurs (lit "user") (lower plan_text)) ∧
  (lit "load_balancer" ∈ concept <$> components
   ↔ occurs (lit "load balancer") (lower plan_text)) ∧
  (lit "compute" ∈ concept <$> components
   ↔ occurs (lit "server") (lower plan_text) ∨ occurs (lit "compute") (lower plan_text)
     ∨ occurs (lit "instance") (lower plan_text)) ∧
  (lit "database_sql" ∈ concept <$> components
   ↔ occurs (lit "database") (lower plan_text) ∨ occurs (lit "sql") (lower plan_text)) ∧
  (lit "storage_object" ∈ concept <$> components
   ↔ occurs (lit "storage") (lower plan_text) ∨ occurs (lit "bucket") (lower plan_text)) ∧
  (∀ c, c ∈ concept <$> components → c ∈ generic_patterns.*1).
Proof.
  intros Hn [_ ->]%parse_components_inv.
  assert (selected __init__ platform = generic_patterns) as ->.
  { rewrite selected_init. unfold case_variant, known_platforms in Hn.
    repeat destruct (decide _) as [E|_]; try done; exfalso;
      [apply (Hn (lit "aws"))|apply (Hn (lit "gcp"))|apply (Hn (lit "azure"))];
      try (rewrite !elem_of_cons; by auto); by rewrite E. }
  assert (NoDup generic_patterns.*1) as Hnd by (apply (bool_decide_unpack _); by cbv).
  split; [|split; [|split; [|split; [|split]]]].
  - rewrite (concept_detected_entry _ _ _ _ (entry "users?" "User") Hnd)
      by (apply list_elem_of_lookup; by exists 0%nat).
    rewrite (hits_literals _ _ [(lit "user", [Re.Opt (Re.Chr 115)])]);
      [|reflexivity|repeat constructor; by eexists].
    split; [intros (wo & ->%list_elem_of_singleton & Ho); exact Ho|].
    intros Ho. exists (lit "user", [Re.Opt (Re.Chr 115)]). split; [left|exact Ho].
  - rewrite (concept_detected_entry _ _ _ _ (entry "load balancer" "Load Balancer") Hnd)
      by (apply list_elem_of_lookup; by exists 1%nat).
    rewrite (hits_literals _ _ [(lit "load balancer", [])]);
      [|reflexivity|repeat constructor].
    split; [intros (wo & ->%list_elem_of_singleton & Ho); exact Ho|].
    intros Ho. exists (lit "load balancer", []). split; [left|exact Ho].
  - rewrite (concept_detected_entry _ _ _ _ (entry "server|compute|instance" "Compute") Hnd)
      by (apply list_elem_of_lookup; by exists 2%nat).
    rewrite (hits_literals _ _ [(lit "server", []); (lit "compute", []); (lit "instance", [])]);
      [|reflexivity|repeat constructor].
    split.
    + intros (wo & Hwo & Ho). rewrite !elem_of_cons, elem_of_nil in Hwo.
      destruct Hwo as [->|[->|[->|[]]]]; auto.
    + intros [Ho|[Ho|Ho]];
        [exists (lit "server", [])|exists (lit "compute", [])|exists (lit "instance", [])];
        (split; [rewrite !elem_of_cons; auto|exact Ho]).
  - rewrite (concept_detected_entry _ _ _ _ (entry "database|sql" "Database") Hnd)
      by (apply list_elem_of_lookup; by exists 3%nat).
    rewrite (hits_literals _ _ [(lit "database", []); (lit "sql", [])]);
      [|reflexivity|repeat constructor].
    split.
    + intros (wo & Hwo & Ho). rewrite !elem_of_cons, elem_of_nil in Hwo.
      destruct Hwo as [->|[->|[]]]; auto.
    + intros [Ho|Ho]; [exists (lit "database", [])|exists (lit "sql", [])];
        (split; [rewrite !elem_of_cons; auto|exact Ho]).
  - rewrite (concept_detected_entry _ _ _ _ (entry "storage|bucket" "Storage") Hnd)
      by (apply list_elem_of_lookup; by exists 4%nat).
    rewrite (hits_literals _ _ [(lit "storage", []); (lit "bucket", [])]);
      [|reflexivity|repeat constructor].
    split.
    + intros (wo & Hwo & Ho). rewrite !elem_of_cons, elem_of_nil in Hwo.
      destruct Hwo as [->|[->|[]]]; auto.
    + intros [Ho|Ho]; [exists (lit "storage", [])|exists (lit "bucket", [])];
        (split; [rewrite !elem_of_cons; auto|exact Ho]).
  - intros c. rewrite sorted_perm, detected_concepts.
    intros (kv & -> & [_ Hin]%list_elem_of_filter)%list_elem_of_fmap.
    by apply list_elem_of_fmap_2.
Qed.

(** X11. The sort keeps ties in table order: in a list that extraction
    returns, the components with one layer and one display name (as the two
    "Pub/Sub" entries of [gcp]) follow each other in the order of the
    platform table. *)
Theorem ties_keep_table_order plan_text platform l n components :
  outcome (parse_components __init__ plan_text platform) = inr components →
  filter (λ d, layer d = l ∧ name d = n) components
  = filter (λ d, layer d = l ∧ name d = n)
      (detected __init__ (lower plan_text) (selected __init__ platform)).
Proof.
  intros [_ ->]%parse_components_inv.
  apply filter_sorted. intros a b [Ha Ha'] [Hb Hb'].
  unfold component_le, key_le, sort_key. simpl.
  rewrite Ha, Hb, Ha', Hb', Z.eqb_refl, str_le_refl. by rewrite orb_true_r.
Qed.

(** X13. On every platform a synonym that stands alone is found: if the
    pattern of a table entry has a branch [\bw\b] for a phrase [w] that
    begins and ends with a word character, and [w] stands alone in the
    case-folded plan text, the component of the entry is in the list. *)
Theorem standalone_synonym_detected plan_text platform c e r w a z :
  (c, e) ∈ selected __init__ platform →
  Re.compile (Entry.pattern e) = Some r →
  (Re.One Re.Boundary :: ((λ x, Re.One (Re.Chr x)) <$> w) ++ [Re.One Re.Boundary]) ∈ r →
  head w = Some a → is_word a = true →
  last w = Some z → is_word z = true →
  standalone w (lower plan_text) →
  ∃ components,
    outcome (parse_components __init__ plan_text platform) = inr components ∧
    make_component __init__ c e ∈ components.
Proof.
  intros Hin Hr Hb Ha Ha' Hz Hz' Hw. rewrite parse_components_init.
  assert (resolves __init__ platform = true) as ->.
  { rewrite resolves_init. destruct (decide _) as [|Hn]; [done|]. exfalso.
    assert (selected __init__ platform = generic_patterns) as E.
    { rewrite selected_init. unfold known_platforms in Hn.
      rewrite !elem_of_cons, elem_of_nil in Hn.
      repeat (destruct (decide _) as [?|_]; [exfalso; tauto|]). done. }
    rewrite E in Hin. by apply (generic_patterns_unanchored c e r _ Hin Hr Hb). }
  eexists. split; [done|]. apply elem_of_sorted, elem_of_detected.
  exists c, e. split; [done|]. split; [|done].
  by apply (hits_standalone _ (c, e) w [] a z r).
Qed.

End case_and_words.

Section output_properties.
Context `{U : UnicodeData}.

Lemma stdout_bind {A B} (m : M A) (k : A → M B) :
  stdout (bind m k)
  = stdout m ++ match outcome m with inl _ => [] | inr a => stdout (k a) end.
Proof.
  destruct m as [out [e|a]]; simpl; [by rewrite app_nil_r|]. by destruct (k a).
Qed.

Lemma outcome_bind {A B} (m : M A) (k : A → M B) :
  outcome (bind m k)
  = match outcome m with inl e => inl e | inr a => outcome (k a) end.
Proof. destruct m as [out [e|a]]; simpl; [done|]. by destruct (k a). Qed.

(** X14. What the entry point hands to [sys.stdout].  A call that returns a
    text has made one [print] call, with the warning that names the platform
    as it was passed, if a plan and a platform are given and the case-folded
    platform is none of [aws], [gcp], [azure]; otherwise it has printed
    nothing.  A call that raises has printed nothing. *)
Theorem prints_only_fallback_warning plan_text target_platform :
  stdout (generate_ascii_diagram plan_text target_platform)
  = match outcome (generate_ascii_diagram plan_text target_platform) with
    | inr _ =>
      if decide (plan_text ≠ [] ∧ target_platform ≠ [] ∧
                 lower target_platform ∉ known_platforms)
      then [unknown_platform_warning target_platform]
      else []
    | inl _ => []
    end.
Proof.
  destruct plan_text as [|c plan].
  { cbn. rewrite decide_False; [done|]. by intros [? _]. }
  destruct target_platform as [|d platform].
  { cbn. rewrite decide_False; [done|]. by intros (_ & ? & _). }
  assert (stdout (generate_ascii_diagram (c :: plan) (d :: platform))
          = stdout (select_patterns __init__ (d :: platform))) as ->.
  { unfold generate_ascii_diagram, create_architecture_diagram, parse_components.
    rewrite !stdout_bind, !outcome_bind.
    destruct (outcome (select_patterns __init__ (d :: platform))) as [e|tbl];
      [by rewrite !app_nil_r|].
    rewrite !stdout_bind, !outcome_bind. cbn [lift ret stdout outcome fst snd].
    destruct (detect _ _ _ _ _) as [e|components]; by rewrite !app_nil_r. }
  rewrite generate_ascii_diagram_outcome, resolves_init, select_patterns_spec.
  rewrite init_platform_services. unfold known_platforms.
  destruct (build_diagram_text_total __init__
              (sorted component_le
                 (detected __init__ (lower (c :: plan)) (selected __init__ (d :: platform))))
              (full_title (d :: platform))) as [text ->].
  destruct (decide (lower (d :: platform) = lit "aws")) as [E|N1].
  { rewrite decide_True by (rewrite E; left).
    rewrite decide_False; [done|]. intros (_ & _ & Hn). apply Hn. rewrite E. left. }
  destruct (decide (lower (d :: platform) = lit "gcp")) as [E|N2].
  { rewrite decide_True by (rewrite E; right; left).
    rewrite decide_False; [done|]. intros (_ & _ & Hn). apply Hn. rewrite E.
    right. left. }
  destruct (decide (lower (d :: platform) = lit "azure")) as [E|N3].
  { rewrite decide_True by (rewrite E; right; right; left).
    rewrite decide_False; [done|]. intros (_ & _ & Hn). apply Hn. rewrite E.
    right. right. left. }
  assert (lower (d :: platform) ∉ [lit "aws"; lit "gcp"; lit "azure"]) as Hn.
  { rewrite !elem_of_cons, elem_of_nil. tauto. }
  rewrite (decide_False (P := lower (d :: platform) ∈ _)) by done.
  destruct (warning_prints (d :: platform)); [|done].
  by rewrite decide_True.
Qed.

End output_properties.

(** ** The further properties at concrete inputs *)

Ltac letters :=
  repeat (constructor;
          [first [left; reflexivity
                 |right; left; split; reflexivity
                 |right; right; split; reflexivity]|]);
  constructor.

Lemma detection_exact_witness :
  ∃ components,
    outcome (parse_components __init__ (lit "A VM behind a firewall") (lit "gcp"))
    = inr components ∧
    (∀ d, d ∈ components ↔
       ∃ c e, (c, e) ∈ selected __init__ (lit "gcp") ∧
              hits (lower (lit "A VM behind a firewall")) (c, e) = true ∧
              d = make_component __init__ c e) ∧
    concept <$> components
    ≡ₚ (filter (λ kv, hits (lower (lit "A VM behind a firewall")) kv = true)
          (selected __init__ (lit "gcp"))).*1 ∧
    (length components ≤ length (selected __init__ (lit "gcp")))%nat.
Proof.
  eexists. split; [vm_compute; reflexivity|].
  apply (detection_exact (lit "A VM behind a firewall") (lit "gcp")).
  vm_compute. reflexivity.
Defined.

Lemma placeholder_iff_no_match_witness :
  ∃ text,
    outcome (generate_ascii_diagram (lit "nothing relevant here") (lit "gcp")) = inr text ∧
    (text = no_components_text (full_title (lit "gcp"))
     ↔ ∀ kv, kv ∈ selected __init__ (lit "gcp") →
             hits (lower (lit "nothing relevant here")) kv = false).
Proof.
  eexists. split; [vm_compute; reflexivity|].
  apply (placeholder_iff_no_match 110%N (lit "othing relevant here") 103%N (lit "cp")).
  vm_compute. reflexivity.
Defined.

Lemma output_is_fenced_witness :
  ∃ text,
    outcome (generate_ascii_diagram (lit "An S3 bucket") (lit "marsnet")) = inr text ∧
    ∃ body, text = fence_open ++ body ++ fence_close.
Proof.
  eexists. split; [vm_compute; reflexivity|].
  apply (output_is_fenced (lit "An S3 bucket") (lit "marsnet")).
  vm_compute. reflexivity.
Defined.

Lemma defaults_never_used_witness :
  ∃ components,
    outcome (parse_components __init__ (lit "some servers and a bucket") (lit "marsnet"))
    = inr components ∧
    ∀ d, d ∈ components →
      service_icons __init__ !! concept d = Some (icon d) ∧
      icon d ≠ unknown_icon ∧
      layer_priority __init__ !! concept d = Some (layer d) ∧
      0 ≤ layer d ≤ 8.
Proof.
  eexists. split; [vm_compute; reflexivity|].
  apply (defaults_never_used (lit "some servers and a bucket") (lit "marsnet")).
  vm_compute. reflexivity.
Defined.

Lemma ties_keep_table_order_witness :
  ∃ components,
    outcome (parse_components __init__ (lit "events over pub/sub") (lit "gcp"))
    = inr components ∧
    filter (λ d, layer d = 4 ∧ name d = lit "Pub/Sub") components
    = filter (λ d, layer d = 4 ∧ name d = lit "Pub/Sub")
        (detected __init__ (lower (lit "events over pub/sub")) (selected __init__ (lit "gcp"))).
Proof.
  eexists. split; [vm_compute; reflexivity|].
  apply (ties_keep_table_order (lit "events over pub/sub") (lit "gcp")).
  vm_compute. reflexivity.
Defined.

Lemma diagram_line_count_witness :
  ∃ lines,
    diagram_lines __init__
      [Component (lit "user") (lit "Users") [63743; 252; 235; 8226]%N 0;
       Component (lit "internet") (lit "Internet") [63743; 252; 229; 234]%N 0;
       Component (lit "iam") (lit "IAM") [63743; 252; 238; 234]%N 7]
      (lit "Architecture on AWS") = inr lines ∧
    length lines = 8%nat.
Proof.
  eexists. split; [vm_compute; reflexivity|].
  apply (diagram_line_count __init__
           [Component (lit "user") (lit "Users") [63743; 252; 235; 8226]%N 0;
            Component (lit "internet") (lit "Internet") [63743; 252; 229; 234]%N 0;
            Component (lit "iam") (lit "IAM") [63743; 252; 238; 234]%N 7]
           (lit "Architecture on AWS")); [discriminate|vm_compute; reflexivity].
Defined.

Lemma plan_case_insensitive_witness :
  generate_ascii_diagram (lit "An S3 Bucket") (lit "aws")
  = generate_ascii_diagram (lit "an s3 bucket") (lit "aws").
Proof. apply plan_case_insensitive. letters. Defined.

Lemma platform_case_insensitive_witness :
  outcome (generate_ascii_diagram (lit "an s3 bucket") (lit "AwS"))
  = outcome (generate_ascii_diagram (lit "an s3 bucket") (lit "aws")).
Proof. apply platform_case_insensitive. letters. Defined.

Lemma generic_detection_is_substring_witness :
  ∃ components,
    outcome (parse_components __init__ (lit "Observers") (lit "marsnet")) = inr components ∧
    (lit "user" ∈ concept <$> components ↔ occurs (lit "user") (lower (lit "Observers"))) ∧
    (lit "load_balancer" ∈ concept <$> components
     ↔ occurs (lit "load balancer") (lower (lit "Observers"))) ∧
    (lit "compute" ∈ concept <$> components
     ↔ occurs (lit "server") (lower (lit "Observers"))
       ∨ occurs (lit "compute") (lower (lit "Observers"))
       ∨ occurs (lit "instance") (lower (lit "Observers"))) ∧
    (lit "database_sql" ∈ concept <$> components
     ↔ occurs (lit "database") (lower (lit "Observers"))
       ∨ occurs (lit "sql") (lower (lit "Observers"))) ∧
    (lit "storage_object" ∈ concept <$> components
     ↔ occurs (lit "storage") (lower (lit "Observers"))
       ∨ occurs (lit "bucket") (lower (lit "Observers"))) ∧
    (∀ c, c ∈ concept <$> components → c ∈ generic_patterns.*1).
Proof.
  eexists. split; [vm_compute; reflexivity|].
  apply (generic_detection_is_substring (lit "Observers") (lit "marsnet")).
  - intros canonical. unfold known_platforms. rewrite !elem_of_cons, elem_of_nil.
    intros [->|[->|[->|[]]]]; unfold case_variant; by vm_compute.
  - vm_compute. reflexivity.
Defined.

Lemma standalone_synonym_detected_witness :
  ∃ components,
    outcome (parse_components __init__ (lit "One VM here") (lit "gcp")) = inr components ∧
    make_component __init__ (lit "compute")
      (entry "\bcompute engine\b|\bvm\b|\binstance\b|\bgce\b" "Compute Engine")
    ∈ components.
Proof.
  eapply (standalone_synonym_detected (lit "One VM here") (lit "gcp") (lit "compute")
            (entry "\bcompute engine\b|\bvm\b|\binstance\b|\bgce\b" "Compute Engine")
            _ (lit "vm") 118%N 109%N).
  - apply list_elem_of_lookup. by exists 6%nat.
  - reflexivity.
  - apply list_elem_of_lookup. by exists 1%nat.
  - reflexivity.
  - reflexivity.
  - reflexivity.
  - reflexivity.
  - exists (lit "one "), (lit " here"). repeat split; reflexivity.
Defined.

(** ** The title row and the connector row *)

Lemma land_bit_le m w : 0 ≤ Z.land (Z.land m w) 1 ≤ m mod 2.
Proof.
  assert (Z.land (Z.land m w) 1 = Z.land m w mod 2) as ->.
  { change 1 with (Z.ones 1). apply Z.land_ones. lia. }
  rewrite <-!Z.bit0_mod, Z.land_spec.
  destruct (Z.testbit m 0), (Z.testbit w 0); simpl; lia.
Qed.

Lemma center_split s w :
  len s < w →
  ∃ l r, 0 ≤ l ∧ 0 ≤ r ∧ l + len s + r = w ∧ -1 ≤ l - r ≤ 1 ∧
         center s w = spaces l ++ s ++ spaces r.
Proof.
  intros H. unfold center. destruct (Z.geb_spec (len s) w); [lia|].
  set (marg := w - len s).
  assert (0 < marg) as Hm by (unfold marg; lia).
  pose proof (land_bit_le marg w) as Hb.
  pose proof (Z.div_mod marg 2 ltac:(lia)) as Hd.
  pose proof (Z.mod_pos_bound marg 2 ltac:(lia)) as Hr.
  exists (marg / 2 + Z.land (Z.land marg w) 1),
         (marg - (marg / 2 + Z.land (Z.land marg w) 1)).
  split; [|split; [|split; [|split; [|done]]]]; unfold marg in *; lia.
Qed.

Lemma spaces_S n : 1 ≤ n → spaces n = 32%N :: spaces (n - 1).
Proof.
  intros. unfold spaces.
  replace (Z.to_nat n) with (S (Z.to_nat (n - 1))) by lia. apply replicate_S.
Qed.

Lemma spaces_S_end n : 1 ≤ n → spaces n = spaces (n - 1) ++ [32%N].
Proof.
  intros. unfold spaces.
  replace (Z.to_nat n) with (S (Z.to_nat (n - 1))) by lia. apply replicate_S_end.
Qed.

Lemma slice_inner {A} (x y : A) m : slice (x :: m ++ [y]) 1 (-1) = m.
Proof.
  unfold slice, clamp, len. cbn [length]. rewrite length_app. cbn [length].
  destruct (Z.ltb_spec 1 0); [lia|]. destruct (Z.ltb_spec (-1) 0); [|lia].
  replace (Z.to_nat (Z.min 1 (Z.of_nat (S (length m + 1))))) with 1%nat by lia.
  replace (Z.to_nat (Z.max 0 (Z.of_nat (S (length m + 1)) + -1)
                     - Z.min 1 (Z.of_nat (S (length m + 1))))) with (length m) by lia.
  simpl. apply take_app_length.
Qed.

(** X15. The title row holds the whole title, centred to within one column,
    with at least one blank of padding on each side next to the blank after
    and before the bars.  The connector row holds the whole arrow, centred to
    within one column between at least 17 blanks on each side: cutting the
    first and the last character of the centred arrow line removes blanks
    only. *)
Theorem rows_are_centred components title :
  let bw := box_width components title in
  (∃ l r, 1 ≤ l ∧ 1 ≤ r ∧ -1 ≤ l - r ≤ 1 ∧
          title_row title bw
          = bar ++ lit " " ++ spaces l ++ title ++ spaces r ++ lit " " ++ bar) ∧
  (∃ l r, 17 ≤ l ∧ 17 ≤ r ∧ -1 ≤ l - r ≤ 1 ∧
          connector_row __init__ bw
          = bar ++ spaces l ++ arrow_down (chars __init__) ++ spaces r ++ bar).
Proof.
  intros bw.
  assert (40 ≤ bw ∧ len title + 4 ≤ bw) as [H40 Ht] by (unfold bw, box_width; lia).
  split.
  - destruct (center_split title (bw - 2)) as (l & r & Hl & Hr & Hs & Hd & Hc); [lia|].
    exists l, r. split; [lia|]. split; [lia|]. split; [done|].
    unfold title_row. rewrite Hc. by rewrite <-!app_assoc.
  - destruct (center_split (arrow_down (chars __init__)) bw)
      as (l & r & Hl & Hr & Hs & Hd & Hc).
    { change (len (arrow_down (chars __init__))) with 3. lia. }
    change (len (arrow_down (chars __init__))) with 3 in Hs.
    exists (l - 1), (r - 1). split; [lia|]. split; [lia|]. split; [lia|].
    unfold connector_row. rewrite Hc, (spaces_S l), (spaces_S_end r) by lia.
    replace ((32%N :: spaces (l - 1)) ++ arrow_down (chars __init__)
             ++ spaces (r - 1) ++ [32%N])
      with (32%N :: (spaces (l - 1) ++ arrow_down (chars __init__) ++ spaces (r - 1))
            ++ [32%N]) by (by rewrite <-!app_assoc).
    by rewrite slice_inner, <-!app_assoc.
Qed.

(** ** Rendering in one pass *)

Section single_pass.

Lemma filter_all {A} (P : A → Prop) `{∀ x, Decision (P x)} (l : list A) :
  (∀ x, x ∈ l → P x) → filter P l = l.
Proof.
  induction l as [|x l IH]; intros HP; [done|].
  rewrite filter_cons, decide_True by (apply HP; left).
  f_equal. apply IH. intros y Hy. apply HP. by right.
Qed.

Lemma filter_sorted_by_layer (P : component → Prop) `{∀ x, Decision (P x)} cs :
  StronglySorted by_layer cs → StronglySorted by_layer (filter P cs).
Proof.
  induction 1 as [|c cs _ IH Hc]; [constructor|].
  rewrite filter_cons. destruct (decide (P c)); [|done].
  constructor; [done|]. apply Forall_forall. intros y [_ Hy]%list_elem_of_filter.
  by apply (proj1 (Forall_forall _ _) Hc).
Qed.

Lemma sorted_min_split cs k :
  StronglySorted by_layer cs → (∀ c, c ∈ cs → k ≤ layer c) →
  cs = filter (λ c, layer c = k) cs ++ filter (λ c, layer c ≠ k) cs.
Proof.
  induction 1 as [|c cs Hs IH Hc]; intros Hk; [done|].
  rewrite !filter_cons. destruct (decide (layer c = k)) as [E|E].
  - rewrite decide_False by (by intros ?). simpl. f_equal.
    apply IH. intros y Hy. apply Hk. by right.
  - rewrite decide_True by done.
    assert (k < layer c) as Hlt by (pose proof (Hk c ltac:(left)); lia).
    rewrite (filter_none (λ c0, layer c0 = k)), (filter_all (λ c0, layer c0 ≠ k)); [done| |].
    + intros y Hy. pose proof (proj1 (Forall_forall _ _) Hc y Hy) as Hle.
      unfold by_layer in Hle. lia.
    + intros y Hy. pose proof (proj1 (Forall_forall _ _) Hc y Hy) as Hle.
      unfold by_layer in Hle. lia.
Qed.

Lemma layered_rows_ext self bw cs cs' ks :
  (∀ k, k ∈ ks → filter (λ c, layer c = k) cs = filter (λ c, layer c = k) cs') →
  layered_rows self cs bw ks = layered_rows self cs' bw ks.
Proof.
  induction ks as [|k rest IH]; intros Hf; [done|].
  cbn [layered_rows]. rewrite (Hf k) by left. rewrite IH; [done|].
  intros k' Hk'. apply Hf. by right.
Qed.

Lemma rows_with_connectors_app self bw k a A B :
  Forall (λ c, layer c = k) (a :: A) → Forall (λ c, layer c ≠ k) B →
  rows_with_connectors self bw ((a :: A) ++ B)
  = ((λ c, component_row c bw) <$> a :: A)
    ++ match B with [] => [] | _ :: _ => [connector_row self bw] end
    ++ rows_with_connectors self bw B.
Proof.
  revert a. induction A as [|a' A IH]; intros a Ha HB.
  - apply Forall_cons in Ha as [Ha _]. simpl. f_equal.
    destruct B as [|b B]; [done|].
    apply Forall_cons in HB as [Hb _].
    destruct (Z.eqb_spec (layer a) (layer b)); [congruence|done].
  - apply Forall_cons in Ha as [Ha Ha'].
    pose proof Ha' as [Ha'' _]%Forall_cons.
    change (rows_with_connectors self bw ((a :: a' :: A) ++ B))
      with (component_row a bw
            :: (if layer a =? layer a' then [] else [connector_row self bw])
            ++ rows_with_connectors self bw ((a' :: A) ++ B)).
    rewrite IH by done.
    destruct (Z.eqb_spec (layer a) (layer a')); [done|congruence].
Qed.

Lemma layered_rows_single_pass self bw : ∀ ks cs,
  StronglySorted Z.lt ks → StronglySorted by_layer cs →
  (∀ k, k ∈ ks ↔ k ∈ layer <$> cs) →
  layered_rows self cs bw ks = rows_with_connectors self bw cs.
Proof.
  induction ks as [|k rest IH]; intros cs Hks Hcs Hmem.
  - destruct cs as [|c cs]; [done|]. exfalso.
    apply (elem_of_nil (layer c)), Hmem. rewrite fmap_cons. left.
  - apply StronglySorted_inv in Hks as [Hrest Hk].
    assert (∀ c, c ∈ cs → k ≤ layer c) as Hmin.
    { intros c Hc.
      assert (layer c ∈ k :: rest) as [->|Hin]%elem_of_cons
        by (by apply Hmem, list_elem_of_fmap_2); [lia|].
      pose proof (proj1 (Forall_forall _ _) Hk _ Hin). lia. }
    set (A := filter (λ c, layer c = k) cs).
    set (B := filter (λ c, layer c ≠ k) cs).
    assert (cs = A ++ B) as Hsplit by (by apply sorted_min_split).
    assert (∀ k', k' ∈ rest ↔ k' ∈ layer <$> B) as Hmem'.
    { intros k'. split.
      - intros Hk'. pose proof (proj1 (Forall_forall _ _) Hk _ Hk') as Hlt.
        assert (k' ∈ layer <$> cs) as (c & -> & Hc)%list_elem_of_fmap
          by (apply Hmem; by right).
        apply list_elem_of_fmap_2, list_elem_of_filter. split; [lia|done].
      - intros (c & -> & [Hne Hc]%list_elem_of_filter)%list_elem_of_fmap.
        assert (layer c ∈ k :: rest) as [?|?]%elem_of_cons
          by (by apply Hmem, list_elem_of_fmap_2); done. }
    assert (layered_rows self cs bw rest = rows_with_connectors self bw B) as Hrows.
    { rewrite (layered_rows_ext self bw cs B).
      - apply IH; [done|by apply filter_sorted_by_layer|done].
      - intros k' Hk'. pose proof (proj1 (Forall_forall _ _) Hk _ Hk') as Hlt.
        unfold B. rewrite list_filter_filter. apply filter_ext_in.
        intros c _. split; [|tauto]. intros ->. split; [done|lia]. }
    assert (Forall (λ c, layer c = k) A) as HA.
    { apply Forall_forall. by intros c [? _]%list_elem_of_filter. }
    assert (Forall (λ c, layer c ≠ k) B) as HB.
    { apply Forall_forall. by intros c [? _]%list_elem_of_filter. }
    assert (A ≠ []) as HAne.
    { assert (k ∈ layer <$> cs) as (c & Hc & Hin)%list_elem_of_fmap
        by (apply Hmem; left).
      by apply (filter_nonempty (λ c0, layer c0 = k) cs c). }
    cbn [layered_rows]. fold A. rewrite Hrows.
    assert (rows_with_connectors self bw cs = rows_with_connectors self bw (A ++ B)) as ->
      by (by rewrite <-Hsplit).
    clearbody A B. destruct A as [|a A']; [done|].
    rewrite (rows_with_connectors_app self bw k a A' B) by done.
    do 2 f_equal. destruct rest as [|k' rest']; destruct B as [|b B']; try done; exfalso;
      first [apply (elem_of_nil k'), Hmem'; left
            |apply (elem_of_nil (layer b)), Hmem'; rewrite fmap_cons; left].
Qed.

(** X16. For a component list in ascending order of layer, as extraction
    returns it, grouping by layer and walking the sorted layers comes to one
    pass over the list: between the separator and the bottom border stand
    the rows of the components in the order of the list, with a connector
    row exactly where the layer changes. *)
Theorem diagram_lines_single_pass self components title :
  StronglySorted by_layer components →
  diagram_lines self components title
  = inr ([border self top_left top_right (box_width components title);
          title_row title (box_width components title);
          border self tee_left tee_right (box_width components title)]
         ++ rows_with_connectors self (box_width components title) components
         ++ [border self bottom_left bottom_right (box_width components title)]).
Proof.
  intros Hs. rewrite diagram_lines_layered. do 3 f_equal.
  apply layered_rows_single_pass; [|done|].
  - apply sorted_keys_strict, (group_layers_groups components).
  - intros k. by rewrite elem_of_sorted, group_layers_keys.
Qed.

End single_pass.

Section end_to_end.
Context `{U : UnicodeData}.

Lemma sorted_by_layer l : StronglySorted by_layer (sorted component_le l).
Proof.
  pose proof (sorted_components l) as H.
  induction H as [|x l' _ IH Hx]; constructor; [done|].
  eapply Forall_impl; [done|]. intros y [Hlt|[Heq _]]; unfold by_layer; lia.
Qed.

(** X17. End to end: when a plan and a platform are given, extraction
    returns a list and some pattern of the selected table matches, the entry
    point returns, between the fences and joined by newlines, the top border,
    the title row with "Architecture on" and the upper-cased platform, the
    separator, the rows of the detected components in their sorted order with
    a connector row at every change of layer, and the bottom border. *)
Theorem entry_point_diagram c plan_text d platform kv components :
  outcome (parse_components __init__ (c :: plan_text) (d :: platform)) = inr components →
  kv ∈ selected __init__ (d :: platform) →
  hits (lower (c :: plan_text)) kv = true →
  make_component __init__ kv.1 kv.2 ∈ components ∧
  outcome (generate_ascii_diagram (c :: plan_text) (d :: platform))
  = inr (fence_open
         ++ join nl
              ([border __init__ top_left top_right
                  (box_width components (full_title (d :: platform)));
                title_row (full_title (d :: platform))
                  (box_width components (full_title (d :: platform)));
                border __init__ tee_left tee_right
                  (box_width components (full_title (d :: platform)))]
               ++ rows_with_connectors __init__
                    (box_width components (full_title (d :: platform))) components
               ++ [border __init__ bottom_left bottom_right
                     (box_width components (full_title (d :: platform)))])
         ++ fence_close).
Proof.
  intros [Hres Hc]%parse_components_inv Hin Hh.
  rewrite generate_ascii_diagram_outcome, Hres, <-Hc.
  assert (make_component __init__ kv.1 kv.2 ∈ components) as Hd.
  { rewrite Hc. apply elem_of_sorted, elem_of_detected. exists kv.1, kv.2. by destruct kv. }
  split; [done|].
  pose proof (sorted_by_layer
    (detected __init__ (lower (c :: plan_text)) (selected __init__ (d :: platform)))) as Hs.
  rewrite <-Hc in Hs. clear Hc.
  unfold build_diagram_text. destruct components as [|x l]; [by apply elem_of_nil in Hd|].
  rewrite diagram_lines_layered. do 4 f_equal.
  rewrite (layered_rows_single_pass __init__ _ _ (x :: l)); [done| |done|].
  - apply sorted_keys_strict, (group_layers_groups (x :: l)).
  - intros k. by rewrite elem_of_sorted, group_layers_keys.
Qed.

End end_to_end.

Lemma diagram_lines_single_pass_witness :
  diagram_lines __init__
    [Component (lit "user") (lit "Users") [63743; 252; 235; 8226]%N 0;
     Component (lit "iam") (lit "IAM") [63743; 252; 238; 234]%N 7]
    (lit "Architecture on AWS")
  = inr [border __init__ top_left top_right 40;
         title_row (lit "Architecture on AWS") 40;
         border __init__ tee_left tee_right 40;
         component_row (Component (lit "user") (lit "Users") [63743; 252; 235; 8226]%N 0) 40;
         connector_row __init__ 40;
         component_row (Component (lit "iam") (lit "IAM") [63743; 252; 238; 234]%N 7) 40;
         border __init__ bottom_left bottom_right 40].
Proof.
  apply (diagram_lines_single_pass __init__
           [Component (lit "user") (lit "Users") [63743; 252; 235; 8226]%N 0;
            Component (lit "iam") (lit "IAM") [63743; 252; 238; 234]%N 7]
           (lit "Architecture on AWS")).
  repeat constructor. unfold by_layer. simpl. lia.
Defined.

Lemma entry_point_diagram_witness :
  ∃ components,
    outcome (parse_components __init__ (lit "An S3 bucket") (lit "aws")) = inr components ∧
    make_component __init__ (lit "storage_object")
      (entry "\bs3\b|\bbucket\b|\bobject storage\b" "S3 Bucket") ∈ components ∧
    outcome (generate_ascii_diagram (lit "An S3 bucket") (lit "aws"))
    = inr (fence_open
           ++ join nl
                ([border __init__ top_left top_right
                    (box_width components (full_title (lit "aws")));
                  title_row (full_title (lit "aws"))
                    (box_width components (full_title (lit "aws")));
                  border __init__ tee_left tee_right
                    (box_width components (full_title (lit "aws")))]
                 ++ rows_with_connectors __init__
                      (box_width components (full_title (lit "aws"))) components
                 ++ [border __init__ bottom_left bottom_right
                       (box_width components (full_title (lit "aws")))])
           ++ fence_close).
Proof.
  eexists. split; [vm_compute; reflexivity|].
  apply (entry_point_diagram 65%N (lit "n S3 bucket") 97%N (lit "ws")
           (lit "storage_object", entry "\bs3\b|\bbucket\b|\bobject storage\b" "S3 Bucket")).
  - vm_compute. reflexivity.
  - apply list_elem_of_lookup. by exists 11%nat.
  - vm_compute. reflexivity.
Defined.
